(** * trivia_rubric: a shallow embedding of [src/trivia_rubric.py]

    The script recovers a grading rubric from a PDF export: it inflates the
    content streams, tokenizes the parenthesised literal strings, flattens
    them into one sanitized line of text and segments that text into rounds
    and numbered answers.

    Conventions of the embedding.

    - A Python [str] is a list of code points ([list Z]); [bytes] is a list of
      byte values.  Decoding as latin1 is the identity on that representation.
    - The [re] module is embedded as a small backtracking matcher over an
      abstract syntax that covers the constructs the script's eleven patterns
      use.  Repetition is applied to single-character classes only, which is
      all the script needs and keeps the matcher structurally recursive.
    - [\s] and [str.strip] use Python's full Unicode whitespace table.  [\d],
      [\w] and [int] are exact on code points below 256 (predicate [latin1]);
      above them Python also accepts the decimal digits and letters of other
      scripts.  The script only applies them to the output of the sanitizer,
      which is printable ASCII (lemma [sanitize_text_printable]).  [int] is
      total here; CPython raises [ValueError] on more than 4300 digits.
    - Code that can raise or loop is embedded in the [outcome] monad: [Done],
      [Raised] (a Python exception) or [Timeout] (fuel exhausted). *)

From Stdlib Require Import ZArith List Bool Lia String Ascii.
Import ListNotations.
Open Scope Z_scope.

(** ** Python strings *)

Definition str := list Z.

Definition pystr (s : string) : str :=
  map (fun a => Z.of_N (N_of_ascii a)) (list_ascii_of_string s).

Module PyStr.

(** [str.isspace] on one code point (the table of [Py_UNICODE_ISSPACE]). *)
Definition is_space (c : Z) : bool :=
  ((9 <=? c) && (c <=? 13)) || ((28 <=? c) && (c <=? 32))
  || (c =? 133) || (c =? 160) || (c =? 5760)
  || ((8192 <=? c) && (c <=? 8202))
  || (c =? 8232) || (c =? 8233) || (c =? 8239) || (c =? 8287) || (c =? 12288).

(** [str.isdecimal], exact below 256. *)
Definition is_digit (c : Z) : bool := (48 <=? c) && (c <=? 57).

(** [ch.isalnum()] or an underscore, exact below 256. *)
Definition is_word (c : Z) : bool :=
  is_digit c || ((65 <=? c) && (c <=? 90)) || (c =? 95) || ((97 <=? c) && (c <=? 122))
  || (c =? 170) || (c =? 178) || (c =? 179) || (c =? 181) || (c =? 185) || (c =? 186)
  || ((188 <=? c) && (c <=? 190)) || ((192 <=? c) && (c <=? 214))
  || ((216 <=? c) && (c <=? 246)) || ((248 <=? c) && (c <=? 255)).

Fixpoint eqb (a b : str) : bool :=
  match a, b with
  | [], [] => true
  | x :: a', y :: b' => (x =? y) && eqb a' b'
  | _, _ => false
  end.

Fixpoint dropwhile (p : Z -> bool) (s : str) : str :=
  match s with
  | [] => []
  | c :: s' => if p c then dropwhile p s' else s
  end.

Fixpoint takewhile (p : Z -> bool) (s : str) : str :=
  match s with
  | [] => []
  | c :: s' => if p c then c :: takewhile p s' else []
  end.

(** [s.lstrip()], [s.rstrip()], [s.strip()] *)
Definition lstrip (s : str) : str := dropwhile is_space s.
Definition rstrip (s : str) : str := rev (dropwhile is_space (rev s)).
Definition strip (s : str) : str := rstrip (lstrip s).

(** [s.rstrip(chars)] *)
Definition rstrip_chars (chars s : str) : str :=
  rev (dropwhile (fun c => existsb (Z.eqb c) chars) (rev s)).

(** [s.startswith(sub)] *)
Fixpoint startswith (s sub : str) : bool :=
  match sub, s with
  | [], _ => true
  | x :: sub', c :: s' => (c =? x) && startswith s' sub'
  | _ :: _, [] => false
  end.

(** [sub in s] *)
Fixpoint contains (s sub : str) : bool :=
  match s with
  | [] => startswith [] sub
  | _ :: s' => startswith s sub || contains s' sub
  end.

(** [s.rfind(sub)]: the highest index at which [sub] occurs, or -1. *)
Fixpoint rfind_from (s sub : str) (i : nat) (best : Z) : Z :=
  match s with
  | [] => if startswith [] sub then Z.of_nat i else best
  | _ :: s' => rfind_from s' sub (S i) (if startswith s sub then Z.of_nat i else best)
  end.

Definition rfind (s sub : str) : Z := rfind_from s sub 0 (-1).

(** [s[lo:]] and [s[:hi]] for indices that are not negative. *)
Definition slice_from (s : str) (lo : Z) : str := skipn (Z.to_nat lo) s.
Definition slice_to (s : str) (hi : Z) : str := firstn (Z.to_nat hi) s.

(** [s.replace(old, new)] for a non-empty [old]: occurrences are replaced
    left to right and do not overlap.  [skip] counts the characters of an
    occurrence that are still to be passed over. *)
Fixpoint replace_from (old new s : str) (skip : nat) : str :=
  match s with
  | [] => []
  | c :: s' =>
      match skip with
      | S k => replace_from old new s' k
      | O =>
          if startswith s old
          then new ++ replace_from old new s' (Nat.pred (List.length old))
          else c :: replace_from old new s' 0
      end
  end.

Definition replace (s old new : str) : str := replace_from old new s 0.

(** [int(s)] for a run of the decimal digits 0 to 9.  CPython refuses a run
    of more than 4300 digits with [ValueError] (the default of
    [sys.set_int_max_str_digits]); the embedding covers the runs within that
    limit and does not model the refusal. *)
Definition int (s : str) : Z := fold_left (fun acc c => 10 * acc + (c - 48)) s 0.

(** [int(s, 8)] for a run of octal digits. *)
Definition int8 (s : str) : Z := fold_left (fun acc c => 8 * acc + (c - 48)) s 0.

End PyStr.

(** ** The fragment of [re] the script uses *)

Module Re.

Inductive cls : Type :=
| Lit (c : Z)      (* one literal character *)
| Dot              (* .  *)
| Digit            (* \d *)
| Space            (* \s *).

Inductive regex : Type :=
| Eps
| One (c : cls)
| Cat (r1 r2 : regex)
| Alt (r1 r2 : regex)
| Rep (greedy : bool) (lo : nat) (hi : option nat) (c : cls)
| Grp (n : nat) (r : regex)
| Ahead (r : regex)          (* (?=r)  *)
| Behind (c : cls)           (* (?<=c) *)
| WordB                      (* \b *)
| Dollar.                    (* $  *)

Record flags : Type := { ignorecase : bool; dotall : bool }.

Definition no_flags : flags := {| ignorecase := false; dotall := false |}.

(** Simple case folding of ASCII letters. *)
Definition lower (c : Z) : Z := if (65 <=? c) && (c <=? 90) then c + 32 else c.

(** A pattern letter against a subject character under IGNORECASE.  Besides
    the two cases of the letter, [i] also matches U+0130 and U+0131, [k]
    U+212A and [s] U+017F. *)
Definition ci_eq (p c : Z) : bool :=
  (lower c =? lower p)
  || ((lower p =? 105) && ((c =? 304) || (c =? 305)))
  || ((lower p =? 107) && (c =? 8490))
  || ((lower p =? 115) && (c =? 383)).

Definition cls_test (fl : flags) (cl : cls) (c : Z) : bool :=
  match cl with
  | Lit p => if ignorecase fl then ci_eq p c else c =? p
  | Dot => dotall fl || negb (c =? 10)
  | Digit => PyStr.is_digit c
  | Space => PyStr.is_space c
  end.

(** The matcher's position: index, the character before it, the text after
    it, and the spans of the groups closed so far (latest first). *)
Record cursor : Type :=
  { pos : nat; prev : option Z; rest : str; caps : list (nat * (nat * nat)) }.

Definition can_take (hi : option nat) : bool :=
  match hi with Some O => false | _ => true end.

Fixpoint rep_greedy (t : Z -> bool) (lo : nat) (hi : option nat)
  (p : nat) (pv : option Z) (rs : str)
  (k : nat -> option Z -> str -> option cursor) {struct rs} : option cursor :=
  let stop := if Nat.eqb lo 0 then k p pv rs else None in
  match rs with
  | ch :: rs' =>
      if t ch && can_take hi then
        match rep_greedy t (Nat.pred lo) (option_map Nat.pred hi) (S p) (Some ch) rs' k with
        | Some r => Some r
        | None => stop
        end
      else stop
  | [] => stop
  end.

Fixpoint rep_lazy (t : Z -> bool) (lo : nat) (hi : option nat)
  (p : nat) (pv : option Z) (rs : str)
  (k : nat -> option Z -> str -> option cursor) {struct rs} : option cursor :=
  match (if Nat.eqb lo 0 then k p pv rs else None) with
  | Some r => Some r
  | None =>
      match rs with
      | ch :: rs' =>
          if t ch && can_take hi
          then rep_lazy t (Nat.pred lo) (option_map Nat.pred hi) (S p) (Some ch) rs' k
          else None
      | [] => None
      end
  end.

Definition is_word_opt (c : option Z) : bool :=
  match c with Some ch => PyStr.is_word ch | None => false end.

(** Backtracking match of [r] at cursor [c], continuing with [k]. *)
Fixpoint rmatch (fl : flags) (r : regex) (c : cursor)
  (k : cursor -> option cursor) {struct r} : option cursor :=
  match r with
  | Eps => k c
  | One cl =>
      match rest c with
      | ch :: rs' =>
          if cls_test fl cl ch
          then k {| pos := S (pos c); prev := Some ch; rest := rs'; caps := caps c |}
          else None
      | [] => None
      end
  | Cat r1 r2 => rmatch fl r1 c (fun c' => rmatch fl r2 c' k)
  | Alt r1 r2 =>
      match rmatch fl r1 c k with
      | Some x => Some x
      | None => rmatch fl r2 c k
      end
  | Rep g lo hi cl =>
      (if g then rep_greedy else rep_lazy) (cls_test fl cl) lo hi (pos c) (prev c) (rest c)
        (fun p pv rs => k {| pos := p; prev := pv; rest := rs; caps := caps c |})
  | Grp n r1 =>
      rmatch fl r1 c
        (fun c' => k {| pos := pos c'; prev := prev c'; rest := rest c';
                        caps := (n, (pos c, pos c')) :: caps c' |})
  | Ahead r1 =>
      match rmatch fl r1 c Some with
      | Some c' => k {| pos := pos c; prev := prev c; rest := rest c; caps := caps c' |}
      | None => None
      end
  | Behind cl =>
      match prev c with
      | Some ch => if cls_test fl cl ch then k c else None
      | None => None
      end
  | WordB =>
      if xorb (is_word_opt (prev c)) (is_word_opt (hd_error (rest c)))
      then k c else None
  | Dollar =>
      match rest c with
      | [] => k c
      | [10] => k c
      | _ => None
      end
  end.

(** A match object: its span and the spans of its groups. *)
Record rematch : Type :=
  { m_start : nat; m_end : nat; m_caps : list (nat * (nat * nat)) }.

(** One attempt at position [p].  [must_advance] refuses an empty match, as
    the engine does right after an empty match at the same position. *)
Definition match_here (fl : flags) (r : regex) (p : nat) (pv : option Z) (rs : str)
  (must_advance : bool) : option rematch :=
  match rmatch fl r {| pos := p; prev := pv; rest := rs; caps := [] |}
          (fun c => if must_advance && Nat.eqb (pos c) p then None else Some c) with
  | Some c => Some {| m_start := p; m_end := pos c; m_caps := caps c |}
  | None => None
  end.

(** All non-overlapping matches from position [p] on, leftmost first.  [skip]
    counts the characters of the last match that are still to be passed. *)
Fixpoint finditer_from (fl : flags) (r : regex) (p : nat) (pv : option Z) (rs : str)
  (skip : nat) {struct rs} : list rematch :=
  let next (n : nat) :=
    match rs with
    | c :: rs' => finditer_from fl r (S p) (Some c) rs' n
    | [] => []
    end in
  match skip with
  | S n => next n
  | O =>
      match match_here fl r p pv rs false with
      | None => next O
      | Some m =>
          if Nat.eqb (m_end m) p then
            m :: match match_here fl r p pv rs true with
                 | Some m2 => m2 :: next (Nat.pred (m_end m2 - p))
                 | None => next O
                 end
          else m :: next (Nat.pred (m_end m - p))
      end
  end.

Definition finditer (fl : flags) (r : regex) (s : str) : list rematch :=
  finditer_from fl r 0 None s 0.

(** [re.search]: the leftmost match. *)
Fixpoint search_from (fl : flags) (r : regex) (p : nat) (pv : option Z) (rs : str)
  {struct rs} : option rematch :=
  match match_here fl r p pv rs false with
  | Some m => Some m
  | None =>
      match rs with
      | c :: rs' => search_from fl r (S p) (Some c) rs'
      | [] => None
      end
  end.

Definition search (fl : flags) (r : regex) (s : str) : option rematch :=
  search_from fl r 0 None s.

Definition span (s : str) (a b : nat) : str := firstn (b - a) (skipn a s).

(** [m.group(n)] for [n >= 1]; the empty string when the group took no part. *)
Definition group (s : str) (m : rematch) (n : nat) : str :=
  match find (fun e => Nat.eqb (fst e) n) (m_caps m) with
  | Some (_, (a, b)) => span s a b
  | None => []
  end.

(** [pattern.findall(s)] for a pattern with two groups. *)
Definition findall2 (fl : flags) (r : regex) (s : str) : list (str * str) :=
  map (fun m => (group s m 1, group s m 2)) (finditer fl r s).

(** The text between matches, [rs] being the text from position [p] on. *)
Fixpoint between (rs : str) (p : nat) (ms : list rematch) : list str :=
  match ms with
  | [] => [rs]
  | m :: ms' =>
      firstn (m_start m - p) rs :: between (skipn (m_end m - p) rs) (m_end m) ms'
  end.

(** [pattern.split(s)] for a pattern without groups. *)
Definition split (fl : flags) (r : regex) (s : str) : list str :=
  between s 0 (finditer fl r s).

(** [pattern.sub(repl, s)] for a replacement without escapes. *)
Fixpoint splice (repl rs : str) (p : nat) (ms : list rematch) : str :=
  match ms with
  | [] => rs
  | m :: ms' =>
      firstn (m_start m - p) rs ++ repl ++ splice repl (skipn (m_end m - p) rs) (m_end m) ms'
  end.

Definition sub (fl : flags) (r : regex) (repl s : str) : str :=
  splice repl s 0 (finditer fl r s).

(** Pattern-building shorthands. *)
Definition lit (s : string) : regex :=
  fold_right (fun c r => Cat (One (Lit c)) r) Eps (pystr s).
Definition star (c : cls) : regex := Rep true 0 None c.
Definition plus (c : cls) : regex := Rep true 1 None c.
Definition lazy_star (c : cls) : regex := Rep false 0 None c.
Definition opt (c : cls) : regex := Rep true 0 (Some 1%nat) c.
Fixpoint seq (rs : list regex) : regex :=
  match rs with
  | [] => Eps
  | [r] => r
  | r :: rs' => Cat r (seq rs')
  end.

End Re.

(** ** Exceptions, fuel and the [outcome] monad *)

Inductive pyexn : Type :=
| IndexError
| ValueError
| OSError
| PermissionError (strerror : string).

Inductive outcome (A : Type) : Type :=
| Done (a : A)
| Raised (e : pyexn)
| Timeout.

Arguments Done {A} a.
Arguments Raised {A} e.
Arguments Timeout {A}.

Definition bind {A B : Type} (m : outcome A) (f : A -> outcome B) : outcome B :=
  match m with
  | Done a => f a
  | Raised e => Raised e
  | Timeout => Timeout
  end.

Notation "x <- m ;; f" := (bind m (fun x => f))
  (at level 61, m at next level, right associativity).
Notation "' p <- m ;; f" := (bind m (fun x => let p := x in f))
  (at level 61, p pattern, m at next level, right associativity).

(** [content[i]] *)
Definition getitem (content : str) (i : nat) : outcome Z :=
  match nth_error content i with
  | Some c => Done c
  | None => Raised IndexError
  end.

(** [chr(n)] *)
Definition chr (n : Z) : outcome Z :=
  if (0 <=? n) && (n <? 1114112) then Done n else Raised ValueError.

(** One character written as a Rocq character literal. *)
Definition ch (a : ascii) : Z := Z.of_N (N_of_ascii a).
Definition backslash : Z := 92.

(** ** LiteralStringTokenizer: [_strings_from_stream] *)

Module Tokenizer.

(** The [mapping] dictionary of the escape branch. *)
Definition mapping : list (Z * Z) :=
  [ (ch "n", 10); (ch "r", 13); (ch "t", 9); (ch "b", 8); (ch "f", 12);
    (ch "(", ch "("); (ch ")", ch ")"); (backslash, backslash) ].

(** [d.get(key, default)] *)
Definition dict_get (d : list (Z * Z)) (key default : Z) : Z :=
  match find (fun e => fst e =? key) d with
  | Some e => snd e
  | None => default
  end.

(** The test that [c] lies between the digits 0 and 7 *)
Definition is_octal (c : Z) : bool := (ch "0" <=? c) && (c <=? ch "7").

(** The loop that collects up to three octal digits from index [j] on. *)
Fixpoint oct_while (fuel : nat) (content : str) (j : nat) (oct_digits : str)
  : outcome (nat * str) :=
  if (j <? List.length content)%nat && (List.length oct_digits <? 3)%nat then
    c <- getitem content j ;;
    if is_octal c then
      match fuel with
      | O => Timeout
      | S fuel' => oct_while fuel' content (S j) (oct_digits ++ [c])
      end
    else Done (j, oct_digits)
  else Done (j, oct_digits).

(** One pass through the body of the inner [while]: the new index, depth and
    chunk, and whether the pass left the loop through [break]. *)
Definition inner_body (content : str) (i : nat) (depth : Z) (chunk : str)
  : outcome (nat * Z * str * bool) :=
  c <- getitem content i ;;
  if (c =? backslash) && (i + 1 <? List.length content)%nat then
    nxt <- getitem content (i + 1)%nat ;;
    if PyStr.contains (pystr "nrtbf()" ++ [backslash]) [nxt] then
      Done ((i + 2)%nat, depth, chunk ++ [dict_get mapping nxt nxt], false)
    else
      let fallback := Done ((i + 2)%nat, depth, chunk ++ [nxt], false) in
      if is_octal nxt then
        '(j, oct_digits) <- oct_while 3 content (i + 1)%nat [] ;;
        match oct_digits with
        | _ :: _ =>
            x <- chr (PyStr.int8 oct_digits) ;;
            Done (j, depth, chunk ++ [x], false)
        | [] => fallback
        end
      else fallback
  else if c =? ch "(" then
    Done ((i + 1)%nat, depth + 1, chunk ++ [c], false)
  else if c =? ch ")" then
    if depth - 1 =? 0
    then Done ((i + 1)%nat, depth - 1, chunk, true)
    else Done ((i + 1)%nat, depth - 1, chunk ++ [c], false)
  else Done ((i + 1)%nat, depth, chunk ++ [c], false).

(** The inner [while i < length and depth > 0]. *)
Fixpoint inner_while (fuel : nat) (content : str) (i : nat) (depth : Z) (chunk : str)
  : outcome (nat * Z * str) :=
  if (i <? List.length content)%nat && (0 <? depth) then
    match fuel with
    | O => Timeout
    | S fuel' =>
        '(i', depth', chunk', brk) <- inner_body content i depth chunk ;;
        if (brk : bool) then Done (i', depth', chunk')
        else inner_while fuel' content i' depth' chunk'
    end
  else Done (i, depth, chunk).

(** The outer [while i < length]; the result lists the strings yielded. *)
Fixpoint outer_while (fuel : nat) (content : str) (i : nat) : outcome (list str) :=
  if (i <? List.length content)%nat then
    match fuel with
    | O => Timeout
    | S fuel' =>
        c <- getitem content i ;;
        if negb (c =? ch "(") then outer_while fuel' content (i + 1)%nat
        else
          '(i', _, chunk) <- inner_while fuel' content (i + 1)%nat 1 [] ;;
          more <- outer_while fuel' content i' ;;
          Done (chunk :: more)
    end
  else Done [].

(** Every pass moves the index forward, so the length of the block bounds
    the number of passes and the fuel below is never exhausted. *)
Definition _strings_from_stream (content : str) : outcome (list str) :=
  outer_while (S (List.length content)) content 0.

End Tokenizer.

(** ** The module-level and local patterns *)

Module Patterns.
Import Re.

(** STREAM_PATTERN: stream, an optional CR, LF, a lazy group of any bytes,
    an optional CR, LF, endstream; bytes pattern, DOTALL *)
Definition STREAM_PATTERN : regex :=
  seq [ lit "stream"; opt (Lit 13); One (Lit 10); Grp 1 (lazy_star Dot);
        opt (Lit 13); One (Lit 10); lit "endstream" ].
Definition STREAM_FLAGS : flags := {| ignorecase := false; dotall := true |}.

(** NOTE_PATTERN: a bar, \s*, an opening parenthesis, note:, then the rest
    of the line; IGNORECASE *)
Definition NOTE_PATTERN : regex :=
  seq [ One (Lit (ch "|")); star Space; lit "(note:"; star Dot ].
Definition NOTE_FLAGS : flags := {| ignorecase := true; dotall := false |}.

(** WHITESPACE_COLLAPSE: \s+ *)
Definition WHITESPACE_COLLAPSE : regex := plus Space.

(** Round\s+\d+: is the head shared by the round pattern and its lookahead *)
Definition round_head : regex :=
  seq [ lit "Round"; plus Space; plus Digit; One (Lit (ch ":")) ].

(** round_pattern: group 1 is the head, \s* and a lazy run of any
    characters; the lookahead is the head, or Tiebreakers\b, or $;
    IGNORECASE | DOTALL *)
Definition round_pattern : regex :=
  Cat (Grp 1 (seq [ round_head; star Space; lazy_star Dot ]))
      (Ahead (Alt round_head (Alt (Cat (lit "Tiebreakers") WordB) Dollar))).
Definition ROUND_FLAGS : flags := {| ignorecase := true; dotall := true |}.

(** The question marker \b\d+\. that [re.search] looks for in a section *)
Definition question_start_pattern : regex :=
  seq [ WordB; plus Digit; One (Lit (ch ".")) ].

(** \bTiebreakers\b and a group with everything after it;
    IGNORECASE | DOTALL *)
Definition tiebreakers_pattern : regex :=
  seq [ WordB; lit "Tiebreakers"; WordB; Grp 1 (star Dot) ].

(** question_pattern: group 1 is \d+, then a dot and \s+, group 2 a lazy
    run of any characters; the lookahead is \d+ dot \s+, or $; DOTALL *)
Definition question_pattern : regex :=
  seq [ Grp 1 (plus Digit); One (Lit (ch ".")); plus Space; Grp 2 (lazy_star Dot);
        Ahead (Alt (seq [ plus Digit; One (Lit (ch ".")); plus Space ]) Dollar) ].
Definition QUESTION_FLAGS : flags := {| ignorecase := false; dotall := true |}.

(** The four patterns of [clean_answer]: a slash with the whitespace around
    it, a comma with the whitespace around it, comma-space between two
    digits (lookbehind and lookahead), and two or more whitespace
    characters *)
Definition slash_pattern : regex := seq [ star Space; One (Lit (ch "/")); star Space ].
Definition comma_pattern : regex := seq [ star Space; One (Lit (ch ",")); star Space ].
Definition digit_comma_pattern : regex :=
  seq [ Behind Digit; lit ", "; Ahead (One Digit) ].
Definition spaces_pattern : regex := Rep true 2 None Space.

End Patterns.

(** ** QuestionAnswerParser: [extract_answer], [clean_answer], [_parse_questions] *)

Import Patterns.

(** [text[pos + 1:].strip()] for [pos = text.rfind(marker)] *)
Definition trailing_after (text marker : str) : str :=
  PyStr.strip (PyStr.slice_from text (PyStr.rfind text marker + 1)).

(** The loop over the two markers, the question mark first: the first marker
    the text contains decides, through its last occurrence. *)
Fixpoint marker_loop (markers : list str) (text : str) : option str :=
  match markers with
  | [] => Some text
  | marker :: markers' =>
      if PyStr.contains text marker then
        match trailing_after text marker with
        | [] => None
        | trailing => Some trailing
        end
      else marker_loop markers' text
  end.

Definition extract_answer (segment : str) : option str :=
  let text := PyStr.strip segment in
  match text with
  | [] => None
  | _ => marker_loop [pystr "?"; pystr "!"] text
  end.

Definition clean_answer (answer : str) : str :=
  let answer := hd [] (Re.split NOTE_FLAGS NOTE_PATTERN (PyStr.strip answer)) in
  let answer := PyStr.strip (PyStr.rstrip_chars (pystr "|") answer) in
  let answer := Re.sub Re.no_flags slash_pattern (pystr " / ") answer in
  let answer := Re.sub Re.no_flags comma_pattern (pystr ", ") answer in
  let answer := Re.sub Re.no_flags digit_comma_pattern (pystr ",") answer in
  let answer := Re.sub Re.no_flags spaces_pattern (pystr " ") answer in
  PyStr.strip answer.

Definition entry : Type := (str * str)%type.

(** The [for number_text, fragment in ...] loop of [_parse_questions];
    [expected_number] is [None] until the first fragment that is not empty. *)
Fixpoint questions_loop (matches : list (str * str)) (expected_number : option Z)
  (entries : list entry) : list entry :=
  match matches with
  | [] => entries
  | (number_text, fragment) :: matches' =>
      let fragment := PyStr.strip fragment in
      match fragment with
      | [] => questions_loop matches' expected_number entries
      | _ =>
          let number := PyStr.int number_text in
          let accept (expected : Z) :=
            match extract_answer fragment with
            | None => questions_loop matches' (Some expected) entries
            | Some answer =>
                questions_loop matches' (Some (number + 1))
                  (entries ++ [(number_text, clean_answer answer)])
            end in
          match expected_number with
          | None => accept number
          | Some expected =>
              if negb (number =? expected) then
                if number >? expected then entries else accept number
              else accept expected
          end
      end
  end.

Definition _parse_questions (body : str) : list entry :=
  questions_loop (Re.findall2 QUESTION_FLAGS question_pattern body) None [].

(** ** RoundSegmenter: [parse_rounds] *)

Definition round : Type := (str * list entry)%type.

(** The body of the [for match in round_pattern.finditer(text)] loop: the
    round a match contributes, if any. *)
Definition round_of_section (section : str) : option round :=
  match Re.search Re.no_flags question_start_pattern section with
  | None => None
  | Some question_start =>
      let round_name := PyStr.strip (firstn (Re.m_start question_start) section) in
      let body := PyStr.strip (skipn (Re.m_start question_start) section) in
      match _parse_questions body with
      | [] => None
      | entries => Some (round_name, entries)
      end
  end.

Fixpoint rounds_loop (text : str) (matches : list Re.rematch) (rounds : list round)
  : list round :=
  match matches with
  | [] => rounds
  | m :: matches' =>
      let section := PyStr.strip (Re.group text m 1) in
      match round_of_section section with
      | Some r => rounds_loop text matches' (rounds ++ [r])
      | None => rounds_loop text matches' rounds
      end
  end.

(** The tiebreakers block that follows the loop. *)
Definition tiebreakers (text : str) (rounds : list round) : list round :=
  match Re.search ROUND_FLAGS tiebreakers_pattern text with
  | None => rounds
  | Some tb_match =>
      let section := PyStr.strip (Re.group text tb_match 1) in
      match Re.search Re.no_flags question_start_pattern section with
      | None => rounds
      | Some question_start =>
          let body := PyStr.strip (skipn (Re.m_start question_start) section) in
          match _parse_questions body with
          | [] => rounds
          | entries => rounds ++ [(pystr "Tiebreakers", entries)]
          end
      end
  end.

Definition parse_rounds (text : str) : list round :=
  tiebreakers text (rounds_loop text (Re.finditer ROUND_FLAGS round_pattern text) []).

(** ** TextSanitizer *)

(** The test of the two generator expressions: printable ASCII, tab, CR, LF. *)
Definition is_printable (c : Z) : bool :=
  ((32 <=? c) && (c <=? 126)) || PyStr.contains [9; 13; 10] [c].

(** [_is_mostly_printable].  [int(len(token) * 0.8)] is the floor of four
    fifths of the length for every length below 2^50: the double nearest to
    0.8 lies above 0.8 by less than 1e-16, and four fifths of a length is an
    integer or at least 0.2 away from one. *)
Definition _is_mostly_printable (token : str) : bool :=
  match token with
  | [] => false
  | _ =>
      let printable := Z.of_nat (List.length (filter is_printable token)) in
      let len := Z.of_nat (List.length token) in
      (printable >=? (4 * len) / 5) || (printable =? len)
  end.

(** The part of [extract_text] that follows the join: from [combined] to the
    returned string. *)
Definition sanitize_text (combined : str) : str :=
  let sanitized := filter is_printable combined in
  let sanitized := PyStr.replace sanitized (pystr "en-US") (pystr " ") in
  let sanitized := PyStr.replace (PyStr.replace sanitized [13] (pystr " ")) [10] (pystr " ") in
  let sanitized := Re.sub Re.no_flags WHITESPACE_COLLAPSE (pystr " ") sanitized in
  PyStr.strip sanitized.

(** The locale marker the sanitizer replaces. *)
Definition en_US : str := pystr "en-US".

(** The steps of [sanitize_text] before the whitespace collapse. *)
Definition before_collapse (combined : str) : str :=
  PyStr.replace
    (PyStr.replace (PyStr.replace (filter is_printable combined) en_US (pystr " "))
                   [13] (pystr " "))
    [10] (pystr " ").

(** ** BlockScanner, the file system and [main] *)

Section Pipeline.

(** [zlib.decompress]; [None] stands for [zlib.error]. *)
Variable zlib_decompress : str -> option str.

(** [Path.with_suffix] *)
Variable with_suffix : string -> string -> string.

(** The raw streams [STREAM_PATTERN.finditer] finds, in file order. *)
Definition raw_streams (data : str) : list str :=
  map (fun m => Re.group data m 1) (Re.finditer STREAM_FLAGS STREAM_PATTERN data).

(** The loop of [read_stream_strings] over the raw streams. *)
Fixpoint streams_loop (raws : list str) : outcome (list str) :=
  match raws with
  | [] => Done []
  | raw_stream :: raws' =>
      match zlib_decompress raw_stream with
      | None => streams_loop raws'
      | Some decompressed =>
          tokens <- Tokenizer._strings_from_stream decompressed ;;
          more <- streams_loop raws' ;;
          Done (tokens ++ more)
      end
  end.

Definition read_stream_strings (data : str) : outcome (list str) :=
  streams_loop (raw_streams data).

(** [extract_text] after [read_bytes]. *)
Definition text_of_bytes (data : str) : outcome str :=
  tokens <- read_stream_strings data ;;
  let strings := filter _is_mostly_printable tokens in
  let combined := List.concat strings in
  Done (sanitize_text combined).

(** What [main] sees of the file system: the bytes of the regular files and,
    for a path that may not be written, the [strerror] of the refusal.  Only
    [PermissionError] on opening the output is modelled, the one exception
    [main] catches.  The other errors of [open] and [read_bytes] (the output
    is a directory, its parent is missing, the PDF may not be read) escape
    [main] in the script and are outside the model: every file of [files] is
    readable, and every path that [write_refused] does not refuse can be
    written. *)
Record filesystem : Type :=
  { files : string -> option str;
    write_refused : string -> option string }.

Definition extract_text (fs : filesystem) (pdf_path : string) : outcome str :=
  match files fs pdf_path with
  | Some data => text_of_bytes data
  | None => Raised OSError
  end.

(** The rows [write_csv] hands to [writer.writerow], in order. *)
Definition csv_rows (rounds : list round) : list (list str) :=
  flat_map (fun r : round =>
              [fst r] :: [pystr "Question"; pystr "Answer"]
              :: map (fun e : entry => [fst e; snd e]) (snd r) ++ [[]]) rounds.

(** [write_csv]: opening the file fails or the rows are written. *)
Definition write_csv (fs : filesystem) (rounds : list round) (output_path : string)
  : outcome (list (list str)) :=
  match write_refused fs output_path with
  | Some strerror => Raised (PermissionError strerror)
  | None => Done (csv_rows rounds)
  end.

(** The parsed command line. *)
Record arguments : Type := { pdf : string; output : option string }.

(** How a run ends unless an exception escapes: [main] returns a status, or
    [parser.error] prints its message and exits with status 2. *)
Inductive ending : Type :=
| Returned (status : Z)
| ParserError (message : string).

(** A run of [main]: how it ended and the CSV file it wrote, if any. *)
Record run : Type :=
  { ended : ending; written : option (string * list (list str)) }.

Definition parser_error (message : string) : outcome run :=
  Done {| ended := ParserError message; written := None |}.

Definition no_rounds_message : string :=
  "No rounds found in PDF; is this a supported export?"%string.

(** [main], from the parsed arguments on. *)
Definition main (fs : filesystem) (args : arguments) : outcome run :=
  match files fs (pdf args) with
  | None => parser_error ("PDF not found: " ++ pdf args)%string
  | Some _ =>
      document_text <- extract_text fs (pdf args) ;;
      match parse_rounds document_text with
      | [] => parser_error no_rounds_message
      | rounds =>
          let out :=
            match output args with
            | Some o => o
            | None => with_suffix (pdf args) ".csv"
            end in
          match write_csv fs rounds out with
          | Raised (PermissionError strerror) =>
              parser_error ("Cannot write to " ++ out ++ ": " ++ strerror)%string
          | Raised e => Raised e
          | Timeout => Timeout
          | Done rows => Done {| ended := Returned 0; written := Some (out, rows) |}
          end
      end
  end.

(** The two calls of [main] between reading the file and writing the
    rubric: text extraction, then round parsing. *)
Definition rubric_of_bytes (data : str) : outcome (list round) :=
  document_text <- text_of_bytes data ;;
  Done (parse_rounds document_text).

End Pipeline.

(** ** Example data *)

(** A file system with one PDF that holds no stream at all. *)
Definition empty_pdf_fs : filesystem :=
  {| files := fun p => if String.eqb p "quiz.pdf" then Some (pystr "%PDF-1.4") else None;
     write_refused := fun _ => None |}.

(** The decompressed block of the end-to-end example. *)
Definition example_block : str :=
  pystr "(Round 1: Warmup 1. What is 2+2? 4! 2. Capital of France? Paris|)".

(** A container with one stream whose raw bytes are [XYZ], and a
    decompressor that inflates exactly those bytes to [example_block]. *)
Definition example_container : str :=
  pystr "%PDF-1.4 stream" ++ [10] ++ pystr "XYZ" ++ [10] ++ pystr "endstream".

Definition example_inflate (raw : str) : option str :=
  if PyStr.eqb raw (pystr "XYZ") then Some example_block else None.

(** ** Definitions that follow the specification's wording

    They are compared with the code's definitions in the theorems below. *)

Module Spec.

(** An octal digit: one of the characters 0 to 7, code points 48 to 55. *)
Definition octal_digit (c : Z) : bool := (48 <=? c) && (c <=? 55).

(** The number a run of octal digits writes in base 8, by place value. *)
Fixpoint octal_value (digits : str) : Z :=
  match digits with
  | [] => 0
  | d :: digits' => (d - 48) * 8 ^ Z.of_nat (List.length digits') + octal_value digits'
  end.

(** The run of at most [n] leading octal digits of [s]: greedy, stopping at
    the first character that is not an octal digit. *)
Fixpoint oct_run (n : nat) (s : str) : str :=
  match n, s with
  | S m, c :: s' => if octal_digit c then c :: oct_run m s' else []
  | _, _ => []
  end.

(** The text begins with an octal digit. *)
Definition starts_octal (s : str) : bool :=
  match s with
  | c :: _ => octal_digit c
  | [] => false
  end.

(** The single character a one-letter escape stands for. *)
Definition control_of (nxt : Z) : option Z :=
  if nxt =? ch "n" then Some 10
  else if nxt =? ch "r" then Some 13
  else if nxt =? ch "t" then Some 9
  else if nxt =? ch "b" then Some 8
  else if nxt =? ch "f" then Some 12
  else if nxt =? ch "(" then Some (ch "(")
  else if nxt =? ch ")" then Some (ch ")")
  else if nxt =? backslash then Some backslash
  else None.

(** Decoding of an escape from the text [after] the backslash: the decoded
    character and the number of source characters consumed, the backslash
    included. *)
Definition escape (after : str) : option (Z * nat) :=
  match after with
  | [] => None
  | nxt :: _ =>
      match control_of nxt with
      | Some x => Some (x, 2%nat)
      | None =>
          if octal_digit nxt
          then let digits := oct_run 3 after in
               Some (octal_value digits, S (List.length digits))
          else Some (nxt, 2%nat)
      end
  end.

(** The tokenizer as the specification words it: a scan from left to
    right that is either outside a token, looking for an opening
    parenthesis, or inside one, with the parenthesis depth and the text
    decoded so far. *)
Inductive mode : Type :=
| Outside
| Inside (depth : Z) (chunk : str).

(** [scan skip m s] scans [s] from the mode [m]: the tokens that were closed,
    in order, and the mode at the end of the block.  [skip] counts the
    characters of an escape that are still to be passed over.  Inside a
    token a backslash is decoded by [escape]; an opening parenthesis raises
    the depth and is kept; a closing parenthesis lowers the depth and ends
    the token when the depth reaches 0, and is kept otherwise.  A backslash
    that ends the block has nothing to decode and is kept. *)
Fixpoint scan (skip : nat) (m : mode) (s : str) : list str * mode :=
  match s with
  | [] => ([], m)
  | c :: s' =>
      match skip with
      | S skip' => scan skip' m s'
      | O =>
          match m with
          | Outside =>
              if c =? ch "(" then scan 0 (Inside 1 []) s' else scan 0 Outside s'
          | Inside depth chunk =>
              if c =? backslash then
                match escape s' with
                | Some (x, consumed) => scan (consumed - 1) (Inside depth (chunk ++ [x])) s'
                | None => scan 0 (Inside depth (chunk ++ [c])) s'
                end
              else if c =? ch "(" then scan 0 (Inside (depth + 1) (chunk ++ [c])) s'
              else if c =? ch ")" then
                if depth - 1 =? 0
                then let '(closed, m') := scan 0 Outside s' in (chunk :: closed, m')
                else scan 0 (Inside (depth - 1) (chunk ++ [c])) s'
              else scan 0 (Inside depth (chunk ++ [c])) s'
          end
      end
  end.

(** The tokens of a scan: the closed ones, then the text of a token that
    was still open at the end of the block. *)
Definition emitted (r : list str * mode) : list str :=
  fst r ++ match snd r with
           | Outside => []
           | Inside _ chunk => [chunk]
           end.

Definition tokens (content : str) : list str := emitted (scan 0 Outside content).

(** Answer extraction as the specification words it: the text after the
    last question or exclamation mark of the trimmed fragment, whichever
    comes last. *)
Definition is_mark (c : Z) : bool := (c =? ch "?") || (c =? ch "!").

Definition after_last_mark (text : str) : str :=
  rev (PyStr.takewhile (fun c => negb (is_mark c)) (rev text)).

Definition extract_answer_last_mark (fragment : str) : option str :=
  let text := PyStr.strip fragment in
  match text with
  | [] => None
  | _ =>
      if existsb is_mark text then
        match PyStr.strip (after_last_mark text) with
        | [] => None
        | trailing => Some trailing
        end
      else Some text
  end.

(** Collapsing every run of whitespace to one space; [in_run] tells that the
    previous character was whitespace. *)
Fixpoint collapse_from (in_run : bool) (s : str) : str :=
  match s with
  | [] => []
  | c :: s' =>
      if PyStr.is_space c
      then if in_run then collapse_from true s' else 32 :: collapse_from true s'
      else c :: collapse_from false s'
  end.

Definition collapse (s : str) : str := collapse_from false s.

End Spec.

(** ** Predicates used in the statements *)

(** A character that is neither a backslash nor a parenthesis. *)
Definition plain (c : Z) : Prop := c <> backslash /\ c <> ch "(" /\ c <> ch ")".

(** [Some s] for a string that is not empty, [None] for the empty string. *)
Definition nonempty (s : str) : option str :=
  match s with
  | [] => None
  | _ => Some s
  end.

(** The question numbers of a list of entries, as integers. *)
Definition numbers (entries : list entry) : list Z :=
  map (fun e : entry => PyStr.int (fst e)) entries.

(** Each element is at least its predecessor. *)
Fixpoint nondecreasing (l : list Z) : Prop :=
  match l with
  | a :: (b :: _) as tl => a <= b /\ nondecreasing tl
  | _ => True
  end.

(** No two adjacent characters of [s] are whitespace, and [s] does not
    begin with whitespace when [after_space] holds. *)
Fixpoint spaced (after_space : bool) (s : str) : Prop :=
  match s with
  | [] => True
  | c :: s' => (after_space = true -> PyStr.is_space c = false) /\ spaced (PyStr.is_space c) s'
  end.

(** No element exceeds its predecessor by more than one. *)
Fixpoint bounded_steps (l : list Z) : Prop :=
  match l with
  | a :: (b :: _) as tl => b <= a + 1 /\ bounded_steps tl
  | _ => True
  end.

(** [c'] is reached from [c] by consuming [taken]. *)
Definition advances (c c' : Re.cursor) (taken : str) : Prop :=
  Re.rest c = taken ++ Re.rest c' /\ Re.pos c' = (Re.pos c + List.length taken)%nat.

(** The pattern has no capturing group. *)
Fixpoint groupfree (r : Re.regex) : bool :=
  match r with
  | Re.Cat r1 r2 | Re.Alt r1 r2 => groupfree r1 && groupfree r2
  | Re.Grp _ _ => false
  | Re.Ahead r1 => groupfree r1
  | _ => true
  end.

(** Moving the index of a loop result by [n]. *)
Definition shift_body (n : nat) (r : outcome (nat * Z * str * bool))
  : outcome (nat * Z * str * bool) :=
  match r with
  | Done (i, depth, chunk, brk) => Done ((n + i)%nat, depth, chunk, brk)
  | Raised e => Raised e
  | Timeout => Timeout
  end.

Definition shift_loop (n : nat) (r : outcome (nat * Z * str)) : outcome (nat * Z * str) :=
  match r with
  | Done (i, depth, chunk) => Done ((n + i)%nat, depth, chunk)
  | Raised e => Raised e
  | Timeout => Timeout
  end.

(** A token character comes from the block or is a code an escape produced. *)
Definition from_block (content : str) (x : Z) : Prop := In x content \/ 0 <= x < 512.

(** [a] is a contiguous part of [s]. *)
Definition infix (a s : str) : Prop := exists l r, s = l ++ a ++ r.

(** The matches are numbered [k], [k + 1], ... and each has an answer. *)
Fixpoint answered_from (k : Z) (matches : list (str * str)) : Prop :=
  match matches with
  | [] => True
  | (number_text, fragment) :: matches' =>
      PyStr.int number_text = k
      /\ extract_answer (PyStr.strip fragment) <> None
      /\ answered_from (k + 1) matches'
  end.

(** The entry an answered match gives. *)
Definition entry_of (m : str * str) : list entry :=
  match extract_answer (PyStr.strip (snd m)) with
  | Some answer => [(fst m, clean_answer answer)]
  | None => []
  end.

(** A code point below 256.  The digit and word classes of the matcher are
    those of Python's [re] on such characters; above them Python also takes
    the decimal digits and letters of other scripts. *)
Definition latin1 (c : Z) : Prop := 0 <= c < 256.

(** The text has no decimal digit. *)
Definition no_digit (s : str) : Prop := Forall (fun a => PyStr.is_digit a = false) s.

(** The character [x] does not occur in the text. *)
Definition without (x : Z) (s : str) : Prop := Forall (fun a => a <> x) s.

(** A file system whose PDF is the example container and that refuses
    every write. *)
Definition refusing_fs : filesystem :=
  {| files := fun p => if String.eqb p "quiz.pdf" then Some example_container else None;
     write_refused := fun _ => Some "Permission denied"%string |}.

Ltac eval_ch :=
  repeat match goal with
         | |- context [ch ?a] =>
             let v := eval vm_compute in (ch a) in change (ch a) with v
         | H : context [ch ?a] |- _ =>
             let v := eval vm_compute in (ch a) in change (ch a) with v in H
         end.

(** * Theorems *)

(** ** Tokenizer *)

Section TokenizerFacts.
Import Tokenizer.

Lemma getitem_nth (content : str) (i : nat) (c : Z) :
  nth_error content i = Some c -> getitem content i = Done c.
Proof. unfold getitem; intros ->; reflexivity. Qed.

Lemma nth_error_skipn_cons (content : str) (i : nat) (c : Z) :
  nth_error content i = Some c -> skipn i content = c :: skipn (S i) content.
Proof.
  revert content; induction i as [|i IH]; intros [|x content] H; try discriminate.
  - injection H as ->; reflexivity.
  - cbn in H. rewrite skipn_cons. rewrite (IH _ H). reflexivity.
Qed.

Lemma skipn_head_nth (content : str) (i : nat) (c : Z) (tl : str) :
  skipn i content = c :: tl -> nth_error content i = Some c /\ tl = skipn (S i) content.
Proof.
  revert content; induction i as [|i IH]; intros [|x content] H; cbn in H; try discriminate.
  - injection H as -> ->; split; reflexivity.
  - apply IH in H. exact H.
Qed.

Lemma nth_error_lt (content : str) (i : nat) (c : Z) :
  nth_error content i = Some c -> (i < List.length content)%nat.
Proof. intros H; apply nth_error_Some; congruence. Qed.

(** The code's digit test is the one of the specification. *)
Lemma is_octal_digit (c : Z) : is_octal c = Spec.octal_digit c.
Proof. reflexivity. Qed.

(** The code's base-8 conversion is the place value of the digits. *)
Lemma int8_from (ds : str) (acc : Z) :
  fold_left (fun a c => 8 * a + (c - 48)) ds acc
  = acc * 8 ^ Z.of_nat (List.length ds) + Spec.octal_value ds.
Proof.
  revert acc; induction ds as [|d ds IH]; intros acc.
  - cbn. lia.
  - cbn [fold_left Spec.octal_value List.length]. rewrite IH.
    rewrite Nat2Z.inj_succ, Z.pow_succ_r by lia. ring.
Qed.

Lemma int8_octal_value (ds : str) : PyStr.int8 ds = Spec.octal_value ds.
Proof. unfold PyStr.int8. rewrite int8_from. lia. Qed.

Lemma oct_run_cons (m : nat) (c : Z) (s : str) :
  Spec.oct_run (S m) (c :: s) = if is_octal c then c :: Spec.oct_run m s else [].
Proof. reflexivity. Qed.

Lemma oct_run_octal (n : nat) (s : str) : Forall (fun c => is_octal c = true) (Spec.oct_run n s).
Proof.
  revert s; induction n as [|n IH]; intros [|c s]; try constructor.
  rewrite oct_run_cons. destruct (is_octal c) eqn:E; constructor; auto.
Qed.

Lemma oct_run_length (n : nat) (s : str) :
  (List.length (Spec.oct_run n s) <= n)%nat /\ (List.length (Spec.oct_run n s) <= List.length s)%nat.
Proof.
  revert s; induction n as [|n IH]; intros [|c s]; try (cbn; lia).
  rewrite oct_run_cons. destruct (is_octal c); cbn [List.length]; [specialize (IH s)|]; lia.
Qed.

(** The digit loop collects exactly the greedy run of at most three digits. *)
Lemma oct_while_run (fuel : nat) (content : str) (j : nat) (ds : str) :
  (3 - List.length ds <= fuel)%nat ->
  oct_while fuel content j ds =
  Done ((j + List.length (Spec.oct_run (3 - List.length ds) (skipn j content)))%nat,
        ds ++ Spec.oct_run (3 - List.length ds) (skipn j content)).
Proof.
  revert j ds; induction fuel as [|fuel IH]; intros j ds Hf.
  - replace (3 - List.length ds)%nat with 0%nat by lia.
    assert (E : (List.length ds <? 3)%nat = false) by (apply Nat.ltb_ge; lia).
    cbn [oct_while Spec.oct_run]. rewrite E, andb_false_r, app_nil_r, Nat.add_0_r.
    reflexivity.
  - cbn [oct_while].
    destruct (Nat.ltb_spec j (List.length content)) as [Hj|Hj];
      destruct (Nat.ltb_spec (List.length ds) 3) as [Hd|Hd]; cbn [andb].
    + destruct (nth_error content j) as [c|] eqn:Ec;
        [|apply nth_error_None in Ec; lia].
      rewrite (getitem_nth _ _ _ Ec), (nth_error_skipn_cons _ _ _ Ec). cbn [bind].
      destruct (3 - List.length ds)%nat as [|m] eqn:Em; [lia|].
      rewrite oct_run_cons. destruct (is_octal c) eqn:Eo.
      * rewrite IH by (rewrite length_app; cbn [List.length]; lia).
        rewrite length_app. cbn [List.length].
        replace (3 - (List.length ds + 1))%nat with m by lia.
        rewrite <- app_assoc. cbn [app]. f_equal. f_equal. lia.
      * rewrite app_nil_r, Nat.add_0_r. reflexivity.
    + replace (3 - List.length ds)%nat with 0%nat by lia.
      cbn [Spec.oct_run]. rewrite app_nil_r, Nat.add_0_r. reflexivity.
    + rewrite (skipn_all2 content) by lia.
      destruct (3 - List.length ds)%nat; cbn [Spec.oct_run];
        rewrite app_nil_r, Nat.add_0_r; reflexivity.
    + replace (3 - List.length ds)%nat with 0%nat by lia.
      cbn [Spec.oct_run]. rewrite app_nil_r, Nat.add_0_r. reflexivity.
Qed.

Lemma contains_singleton (s : str) (x : Z) :
  PyStr.contains s [x] = existsb (fun c => c =? x) s.
Proof.
  induction s as [|c s IH]; [reflexivity|].
  cbn [PyStr.contains existsb]. rewrite IH. cbn [PyStr.startswith].
  destruct s; rewrite andb_true_r; reflexivity.
Qed.

(** The membership test and the dictionary of the code agree with the table
    of one-letter escapes. *)
Lemma control_of_mapping (nxt : Z) :
  match Spec.control_of nxt with
  | Some x =>
      PyStr.contains (pystr "nrtbf()" ++ [backslash]) [nxt] = true
      /\ dict_get mapping nxt nxt = x
  | None => PyStr.contains (pystr "nrtbf()" ++ [backslash]) [nxt] = false
  end.
Proof.
  unfold Spec.control_of, backslash. eval_ch.
  repeat match goal with
         | |- context [nxt =? ?v] => destruct (Z.eqb_spec nxt v) as [->|?]
         end;
    try (split; vm_compute; reflexivity).
  rewrite contains_singleton.
  change (pystr "nrtbf()" ++ [92]) with [110; 114; 116; 98; 102; 40; 41; 92].
  cbn [existsb].
  repeat match goal with
         | |- context [?v =? nxt] =>
             replace (v =? nxt) with false by (symmetry; apply Z.eqb_neq; congruence)
         end.
  reflexivity.
Qed.

Lemma int8_bound (ds : str) :
  Forall (fun c => is_octal c = true) ds -> (List.length ds <= 3)%nat ->
  0 <= PyStr.int8 ds < 512.
Proof.
  intros H Hl.
  assert (Hoct : forall c, is_octal c = true -> 48 <= c <= 55).
  { intros c Hc. unfold is_octal in Hc. eval_ch. lia. }
  destruct ds as [|a [|b [|c [|d ds]]]]; cbn in Hl; try lia;
    repeat match goal with
           | H : Forall _ (_ :: _) |- _ => inversion H; subst; clear H
           end;
    repeat match goal with
           | H : is_octal _ = true |- _ => apply Hoct in H
           end;
    unfold PyStr.int8; cbn [fold_left]; lia.
Qed.

(** The escape branch of [inner_body] against [Spec.escape]. *)
Lemma inner_body_escape :
  forall (content : str) (i : nat) (depth : Z) (chunk : str) (c : Z) (consumed : nat),
    nth_error content i = Some backslash ->
    Spec.escape (skipn (S i) content) = Some (c, consumed) ->
    inner_body content i depth chunk = Done ((i + consumed)%nat, depth, chunk ++ [c], false).
Proof.
  intros content i depth chunk c consumed Hi Hesc.
  unfold Spec.escape in Hesc.
  destruct (skipn (S i) content) as [|nxt tl] eqn:Eafter; [discriminate|].
  destruct (skipn_head_nth _ _ _ _ Eafter) as [Hn _].
  pose proof (nth_error_lt _ _ _ Hn) as Hlt.
  unfold inner_body. rewrite (getitem_nth _ _ _ Hi). cbn [bind].
  rewrite Z.eqb_refl. cbn [andb].
  replace (i + 1)%nat with (S i) by lia.
  destruct (Nat.ltb_spec (S i) (List.length content)) as [_|?]; [|lia].
  rewrite (getitem_nth _ _ _ Hn). cbn [bind].
  pose proof (control_of_mapping nxt) as Hmap.
  destruct (Spec.control_of nxt) as [x|].
  - destruct Hmap as [-> ->]. injection Hesc as <- <-. reflexivity.
  - rewrite Hmap. change (Spec.octal_digit nxt) with (is_octal nxt) in Hesc.
    destruct (is_octal nxt) eqn:Eo.
    + cbv zeta in Hesc. rewrite (oct_run_cons 2 nxt tl), Eo in Hesc.
      rewrite oct_while_run by (cbn; lia).
      change (3 - List.length (@nil Z))%nat with 3%nat.
      rewrite Eafter, (oct_run_cons 2 nxt tl), Eo.
      cbn [app bind].
      assert (Hb : 0 <= PyStr.int8 (nxt :: Spec.oct_run 2 tl) < 512).
      { apply int8_bound.
        - constructor; [exact Eo | apply oct_run_octal].
        - cbn [List.length]. pose proof (oct_run_length 2 tl). lia. }
      unfold chr.
      destruct (Z.leb_spec 0 (PyStr.int8 (nxt :: Spec.oct_run 2 tl))); [|lia].
      destruct (Z.ltb_spec (PyStr.int8 (nxt :: Spec.oct_run 2 tl)) 1114112); [|lia].
      cbn [andb bind].
      assert (Hc : c = PyStr.int8 (nxt :: Spec.oct_run 2 tl))
        by (rewrite int8_octal_value; congruence).
      assert (Hk : consumed = S (List.length (nxt :: Spec.oct_run 2 tl))) by congruence.
      rewrite Hc, Hk. do 4 f_equal. cbn [List.length]. lia.
    + injection Hesc as <- <-. reflexivity.
Qed.

Lemma escape_total (after : str) :
  after <> [] ->
  exists c n, Spec.escape after = Some (c, n) /\ (2 <= n <= S (List.length after))%nat.
Proof.
  destruct after as [|nxt tl]; [congruence|]; intros _.
  unfold Spec.escape. destruct (Spec.control_of nxt) as [x|].
  - exists x, 2%nat. cbn [List.length]. split; [reflexivity|lia].
  - change (Spec.octal_digit nxt) with (is_octal nxt).
    destruct (is_octal nxt) eqn:Eo.
    + cbv zeta. rewrite (oct_run_cons 2 nxt tl), Eo.
      eexists _, _. split; [reflexivity|].
      pose proof (oct_run_length 2 tl). cbn [List.length]. lia.
    + exists nxt, 2%nat. cbn [List.length]. split; [reflexivity|lia].
Qed.

(** Every pass of the inner loop moves the index forward and keeps it
    within the block. *)
Lemma inner_body_advances (content : str) (i : nat) (depth : Z) (chunk : str) :
  (i < List.length content)%nat ->
  exists i' depth' chunk' brk,
    inner_body content i depth chunk = Done (i', depth', chunk', brk)
    /\ (i < i' <= List.length content)%nat
    /\ (brk = true -> depth' = 0).
Proof.
  intros Hi.
  destruct (nth_error content i) as [c|] eqn:Ec; [|apply nth_error_None in Ec; lia].
  destruct ((c =? backslash) && (i + 1 <? List.length content)%nat) eqn:Eb.
  - apply andb_true_iff in Eb as [Ec' Hn]. apply Z.eqb_eq in Ec'. subst c.
    apply Nat.ltb_lt in Hn.
    assert (Hne : skipn (S i) content <> []).
    { intros E. apply (f_equal (@List.length Z)) in E. rewrite length_skipn in E.
      cbn in E. lia. }
    destruct (escape_total _ Hne) as (x & n & He & Hb).
    rewrite length_skipn in Hb.
    eexists _, _, _, _. split; [apply (inner_body_escape _ _ _ _ _ _ Ec He)|].
    split; [lia|discriminate].
  - unfold inner_body. rewrite (getitem_nth _ _ _ Ec). cbn [bind]. rewrite Eb.
    destruct (c =? ch "("); [eexists _, _, _, _; split; [reflexivity|split; [lia|discriminate]]|].
    destruct (c =? ch ")"); [|eexists _, _, _, _; split; [reflexivity|split; [lia|discriminate]]].
    destruct (Z.eqb_spec (depth - 1) 0) as [E|E];
      eexists _, _, _, _; (split; [reflexivity|split; [lia|]]); [intros _; exact E|discriminate].
Qed.

Lemma inner_while_total (fuel : nat) (content : str) (i : nat) (depth : Z) (chunk : str) :
  (List.length content - i <= fuel)%nat ->
  exists j d c, inner_while fuel content i depth chunk = Done (j, d, c) /\ (i <= j)%nat.
Proof.
  revert i depth chunk; induction fuel as [|fuel IH]; intros i depth chunk Hf.
  - cbn [inner_while].
    destruct (Nat.ltb_spec i (List.length content)); [lia|].
    cbn [andb]. eexists _, _, _; split; [reflexivity|lia].
  - cbn [inner_while].
    destruct (Nat.ltb_spec i (List.length content)) as [Hi|Hi]; cbn [andb];
      [|eexists _, _, _; split; [reflexivity|lia]].
    destruct (0 <? depth); [|eexists _, _, _; split; [reflexivity|lia]].
    destruct (inner_body_advances content i depth chunk Hi)
      as (i' & d' & c' & brk & -> & Hlt & _).
    cbn [bind]. destruct brk; [eexists _, _, _; split; [reflexivity|lia]|].
    destruct (IH i' d' c') as (j & d & c & -> & Hj); [lia|].
    eexists _, _, _; split; [reflexivity|lia].
Qed.

Lemma outer_while_total (fuel : nat) (content : str) (i : nat) :
  (List.length content - i <= fuel)%nat ->
  exists tokens, outer_while fuel content i = Done tokens.
Proof.
  revert i; induction fuel as [|fuel IH]; intros i Hf.
  - cbn [outer_while]. destruct (Nat.ltb_spec i (List.length content)); [lia|].
    eexists; reflexivity.
  - cbn [outer_while].
    destruct (Nat.ltb_spec i (List.length content)) as [Hi|Hi]; [|eexists; reflexivity].
    destruct (nth_error content i) as [c|] eqn:Ec; [|apply nth_error_None in Ec; lia].
    rewrite (getitem_nth _ _ _ Ec). cbn [bind].
    destruct (negb (c =? ch "(")).
    + apply IH; lia.
    + destruct (inner_while_total fuel content (i + 1) 1 []) as (j & d & k & -> & Hj); [lia|].
      cbn [bind]. destruct (IH j) as (more & ->); [lia|].
      cbn [bind]. eexists; reflexivity.
Qed.

(** A loop that ends with a positive depth has run into the end of the block. *)
Lemma inner_while_unclosed (fuel : nat) (content : str) (i : nat) (depth : Z) (chunk : str)
  (j : nat) (d : Z) (c : str) :
  inner_while fuel content i depth chunk = Done (j, d, c) -> 0 < d ->
  (List.length content <= j)%nat.
Proof.
  revert i depth chunk; induction fuel as [|fuel IH]; intros i depth chunk H Hd;
    cbn [inner_while] in H;
    destruct (Nat.ltb_spec i (List.length content)) as [Hi|Hi]; cbn [andb] in H;
    try (injection H as <- <- <-; lia);
    destruct (Z.ltb_spec 0 depth) as [Hp|Hp];
    try discriminate; try (injection H as <- <- <-; lia).
  destruct (inner_body_advances content i depth chunk Hi)
    as (i' & d' & c' & brk & E & _ & Hbrk).
  rewrite E in H. cbn [bind] in H. destruct brk.
  - injection H as <- <- <-. specialize (Hbrk eq_refl). lia.
  - exact (IH _ _ _ H Hd).
Qed.

Lemma outer_while_at_end (fuel : nat) (content : str) (j : nat) :
  (List.length content <= j)%nat -> outer_while fuel content j = Done [].
Proof.
  intros H. destruct fuel; cbn [outer_while];
    destruct (Nat.ltb_spec j (List.length content)); try lia; reflexivity.
Qed.

(** Inside a token, text without parentheses and backslashes is copied. *)
Lemma inner_while_plain (t pre chunk : str) (fuel : nat) (depth : Z) :
  Forall plain t -> (List.length t <= fuel)%nat -> 0 < depth ->
  inner_while fuel (pre ++ t) (List.length pre) depth chunk =
  Done (List.length (pre ++ t), depth, chunk ++ t).
Proof.
  revert pre chunk fuel; induction t as [|c t IH]; intros pre chunk fuel Hp Hf Hd.
  - rewrite !app_nil_r. destruct fuel; cbn [inner_while];
      rewrite Nat.ltb_irrefl; reflexivity.
  - destruct fuel as [|fuel]; [cbn in Hf; lia|]. cbn [inner_while].
    assert (Hlt : (List.length pre < List.length (pre ++ c :: t))%nat)
      by (rewrite length_app; cbn; lia).
    destruct (Nat.ltb_spec (List.length pre) (List.length (pre ++ c :: t))); [|lia].
    destruct (Z.ltb_spec 0 depth); [|lia]. cbn [andb].
    assert (Ec : nth_error (pre ++ c :: t) (List.length pre) = Some c).
    { rewrite nth_error_app2, Nat.sub_diag by lia. reflexivity. }
    inversion Hp as [|? ? (Hb & Ho & Hc) Hp']; subst.
    unfold inner_body. rewrite (getitem_nth _ _ _ Ec). cbn [bind].
    destruct (Z.eqb_spec c backslash); [contradiction|]. cbn [andb].
    destruct (Z.eqb_spec c (ch "(")); [contradiction|].
    destruct (Z.eqb_spec c (ch ")")); [contradiction|].
    cbn [bind].
    replace (pre ++ c :: t) with ((pre ++ [c]) ++ t) by (rewrite <- app_assoc; reflexivity).
    replace (List.length pre + 1)%nat with (List.length (pre ++ [c]))
      by (rewrite length_app; reflexivity).
    rewrite IH by (auto; cbn in Hf; lia).
    rewrite <- (app_assoc chunk). reflexivity.
Qed.

(** An opening parenthesis followed by plain text and the end of the block
    yields that text as a token. *)
Lemma unclosed_plain_token (t : str) :
  Forall plain t -> _strings_from_stream (ch "(" :: t) = Done [t].
Proof.
  intros Hp. unfold _strings_from_stream. cbn [List.length outer_while].
  destruct (Nat.ltb_spec 0 (S (List.length t))); [|lia].
  cbn [getitem nth_error bind]. rewrite Z.eqb_refl. cbn [negb].
  pose proof (inner_while_plain t [ch "("] [] (S (List.length t)) 1 Hp) as Hw.
  cbn [app List.length] in Hw. change (0 + 1)%nat with 1%nat.
  rewrite Hw by lia. cbn [bind].
  rewrite Nat.ltb_irrefl. reflexivity.
Qed.

(** *** The tokenizer against the scan of the specification *)

Lemma scan_skip (k : nat) (m : Spec.mode) (s : str) :
  Spec.scan k m s = Spec.scan 0 m (skipn k s).
Proof.
  revert k; induction s as [|c s IH]; intros [|k]; try reflexivity.
  cbn [Spec.scan skipn]. apply IH.
Qed.

Lemma scan_escape (depth : Z) (chunk after : str) (x : Z) (consumed : nat) :
  Spec.escape after = Some (x, consumed) ->
  Spec.scan 0 (Spec.Inside depth chunk) (backslash :: after)
  = Spec.scan 0 (Spec.Inside depth (chunk ++ [x])) (skipn (consumed - 1) after).
Proof.
  intros He. cbn [Spec.scan]. rewrite Z.eqb_refl, He. apply scan_skip.
Qed.

Lemma scan_plain (t : str) :
  forall (depth : Z) (chunk s : str),
    Forall plain t ->
    Spec.scan 0 (Spec.Inside depth chunk) (t ++ s)
    = Spec.scan 0 (Spec.Inside depth (chunk ++ t)) s.
Proof.
  induction t as [|c t IH]; intros depth chunk s Hp.
  - rewrite app_nil_r. reflexivity.
  - inversion Hp as [|? ? (Hb & Ho & Hc) Hp']; subst.
    cbn [app Spec.scan].
    destruct (Z.eqb_spec c backslash); [contradiction|].
    destruct (Z.eqb_spec c (ch "(")); [contradiction|].
    destruct (Z.eqb_spec c (ch ")")); [contradiction|].
    rewrite IH by assumption. rewrite <- app_assoc. reflexivity.
Qed.

Lemma scan_close (chunk s : str) :
  Spec.emitted (Spec.scan 0 (Spec.Inside 1 chunk) (ch ")" :: s))
  = chunk :: Spec.tokens s.
Proof.
  unfold Spec.tokens. cbn [Spec.scan].
  change (ch ")" =? backslash) with false. change (ch ")" =? ch "(") with false.
  rewrite Z.eqb_refl. change (1 - 1 =? 0) with true. cbv iota.
  destruct (Spec.scan 0 Spec.Outside s) as [closed m]. reflexivity.
Qed.

Lemma inner_while_at_end (fuel : nat) (content : str) (i : nat) (depth : Z) (chunk : str) :
  (List.length content <= i)%nat ->
  inner_while fuel content i depth chunk = Done (i, depth, chunk).
Proof.
  intros H. destruct fuel; cbn [inner_while];
    destruct (Nat.ltb_spec i (List.length content)); try lia; reflexivity.
Qed.

(** Both loops compute the scan: the outer loop from outside a token, the
    inner loop followed by the rest of the outer loop from inside one. *)
Lemma loops_scan (content : str) (n : nat) :
  forall i : nat,
    (List.length content - i <= n)%nat ->
    (forall fuel : nat,
        (n <= fuel)%nat ->
        outer_while fuel content i
        = Done (Spec.emitted (Spec.scan 0 Spec.Outside (skipn i content))))
    /\ (forall (fuel fuel' : nat) (depth : Z) (chunk : str),
          (n <= fuel)%nat -> (n <= fuel')%nat -> 0 < depth ->
          ('(j, _, chunk') <- inner_while fuel content i depth chunk ;;
           more <- outer_while fuel' content j ;;
           Done (chunk' :: more))
          = Done (Spec.emitted (Spec.scan 0 (Spec.Inside depth chunk) (skipn i content)))).
Proof.
  induction n as [|n IH]; intros i Hn.
  - assert (Hi : (List.length content <= i)%nat) by lia.
    split.
    + intros fuel _. rewrite outer_while_at_end by exact Hi.
      rewrite skipn_all2 by exact Hi. reflexivity.
    + intros fuel fuel' depth chunk _ _ _.
      rewrite inner_while_at_end by exact Hi. cbn [bind].
      rewrite outer_while_at_end by exact Hi.
      rewrite skipn_all2 by exact Hi. reflexivity.
  - destruct (Nat.ltb_spec i (List.length content)) as [Hi|Hi].
    2:{ split.
        + intros fuel _. rewrite outer_while_at_end by exact Hi.
          rewrite skipn_all2 by exact Hi. reflexivity.
        + intros fuel fuel' depth chunk _ _ _.
          rewrite inner_while_at_end by exact Hi. cbn [bind].
          rewrite outer_while_at_end by exact Hi.
          rewrite skipn_all2 by exact Hi. reflexivity. }
    destruct (nth_error content i) as [c|] eqn:Ec; [|apply nth_error_None in Ec; lia].
    rewrite (nth_error_skipn_cons _ _ _ Ec).
    assert (Hnext : (List.length content - (i + 1) <= n)%nat) by lia.
    destruct (IH (i + 1)%nat Hnext) as [IHout IHin].
    replace (S i) with (i + 1)%nat by lia.
    split.
    + intros [|fuel] Hf; [lia|]. cbn [outer_while].
      destruct (Nat.ltb_spec i (List.length content)); [|lia].
      rewrite (getitem_nth _ _ _ Ec). cbn [bind Spec.scan].
      destruct (c =? ch "("); cbn [negb].
      * apply IHin; lia.
      * apply IHout; lia.
    + intros [|fuel] fuel' depth chunk Hf Hf' Hd; [lia|]. cbn [inner_while].
      destruct (Nat.ltb_spec i (List.length content)); [|lia].
      destruct (Z.ltb_spec 0 depth); [|lia]. cbn [andb].
      destruct ((c =? backslash) && (i + 1 <? List.length content)%nat) eqn:Eb.
      * apply andb_true_iff in Eb as [Ec' Hlt]. apply Z.eqb_eq in Ec'. subst c.
        apply Nat.ltb_lt in Hlt.
        assert (Hne : skipn (i + 1) content <> []).
        { intros E. apply (f_equal (@List.length Z)) in E. rewrite length_skipn in E.
          cbn in E. lia. }
        destruct (escape_total _ Hne) as (x & k & He & Hk).
        rewrite length_skipn in Hk.
        replace (i + 1)%nat with (S i) in He by lia.
        rewrite (inner_body_escape _ _ _ _ _ _ Ec He). cbn [bind].
        replace (i + 1)%nat with (S i) by lia.
        rewrite (scan_escape _ _ _ _ _ He), skipn_skipn.
        replace (k - 1 + S i)%nat with (i + k)%nat by lia.
        assert (Hjump : (List.length content - (i + k) <= n)%nat) by lia.
        destruct (IH (i + k)%nat Hjump) as [_ IHk].
        apply IHk; lia.
      * unfold inner_body. rewrite (getitem_nth _ _ _ Ec). cbn [bind]. rewrite Eb.
        cbn [Spec.scan].
        destruct (Z.eqb_spec c backslash) as [Eq|Eq].
        { subst c. cbn [andb] in Eb. apply Nat.ltb_ge in Eb.
          assert (Hnil : skipn (i + 1) content = []) by (apply skipn_all2; lia).
          rewrite Hnil. cbn [Spec.escape].
          change (backslash =? ch "(") with false.
          change (backslash =? ch ")") with false. cbn [bind].
          rewrite <- Hnil. apply IHin; lia. }
        destruct (c =? ch "("); [cbn [bind]; apply IHin; lia|].
        destruct (c =? ch ")"); [|cbn [bind]; apply IHin; lia].
        destruct (Z.eqb_spec (depth - 1) 0) as [E0|E0]; cbn [bind].
        { rewrite (IHout fuel') by lia.
          destruct (Spec.scan 0 Spec.Outside (skipn (i + 1) content)) as [closed m].
          reflexivity. }
        apply IHin; lia.
Qed.

(** The tokenizer yields the tokens of the scan, on every block. *)
Lemma strings_from_stream_tokens (content : str) :
  _strings_from_stream content = Done (Spec.tokens content).
Proof.
  unfold _strings_from_stream, Spec.tokens.
  destruct (loops_scan content (List.length content) 0%nat ltac:(lia)) as [H _].
  rewrite H by lia. reflexivity.
Qed.

Lemma scan_junk (junk s : str) :
  Forall (fun c => c <> ch "(") junk ->
  Spec.scan 0 Spec.Outside (junk ++ s) = Spec.scan 0 Spec.Outside s.
Proof.
  induction junk as [|c junk IH]; intros Hj; [reflexivity|].
  inversion Hj as [|? ? Hc Hj']; subst. cbn [app Spec.scan].
  destruct (Z.eqb_spec c (ch "(")); [contradiction|]. apply IH. exact Hj'.
Qed.

(** The tokens of a block that opens a token with plain text, one escape,
    plain text and the closing parenthesis. *)
Lemma tokens_escape (t after t2 more : str) (x : Z) (consumed : nat) :
  Forall plain t -> Forall plain t2 ->
  Spec.escape after = Some (x, consumed) ->
  skipn (consumed - 1) after = t2 ++ ch ")" :: more ->
  Spec.tokens (ch "(" :: t ++ backslash :: after) = (t ++ x :: t2) :: Spec.tokens more.
Proof.
  intros Ht Ht2 He Hs. unfold Spec.tokens at 1. cbn [Spec.scan].
  rewrite Z.eqb_refl.
  rewrite (scan_plain t 1 [] _ Ht). cbn [app].
  rewrite (scan_escape _ _ _ _ _ He), Hs.
  rewrite (scan_plain t2 1 _ _ Ht2), <- app_assoc. cbn [app].
  apply scan_close.
Qed.

Lemma strings_escape (t after t2 more : str) (x : Z) (consumed : nat) :
  Forall plain t -> Forall plain t2 ->
  Spec.escape after = Some (x, consumed) ->
  skipn (consumed - 1) after = t2 ++ ch ")" :: more ->
  _strings_from_stream (ch "(" :: t ++ backslash :: after)
  = more' <- _strings_from_stream more ;; Done ((t ++ x :: t2) :: more').
Proof.
  intros Ht Ht2 He Hs.
  rewrite !strings_from_stream_tokens, (tokens_escape _ _ _ _ _ _ Ht Ht2 He Hs).
  reflexivity.
Qed.

Lemma octal_digit_no_letter (d : Z) : Spec.octal_digit d = true -> Spec.control_of d = None.
Proof.
  unfold Spec.octal_digit, Spec.control_of, backslash. eval_ch. intros H.
  apply andb_true_iff in H as [Hl Hu]. apply Z.leb_le in Hl. apply Z.leb_le in Hu.
  repeat match goal with
         | |- context [d =? ?v] => destruct (Z.eqb_spec d v); [lia|]
         end.
  reflexivity.
Qed.

(** A run of octal digits that has three digits, or is followed by
    something else, is the run the decoder takes. *)
Lemma oct_run_app (digits : str) :
  forall (n : nat) (rest : str),
    Forall (fun d => Spec.octal_digit d = true) digits ->
    (List.length digits <= n)%nat ->
    List.length digits = n \/ Spec.starts_octal rest = false ->
    Spec.oct_run n (digits ++ rest) = digits.
Proof.
  induction digits as [|d digits IH]; intros n rest Hd Hn Hend.
  - cbn [app]. destruct n as [|n]; [destruct rest; reflexivity|].
    destruct Hend as [Hend|Hend]; [discriminate|].
    destruct rest as [|c rest]; [reflexivity|].
    cbn [Spec.starts_octal] in Hend. cbn [Spec.oct_run]. rewrite Hend. reflexivity.
  - inversion Hd as [|? ? Hd1 Hd']; subst.
    destruct n as [|n]; [cbn in Hn; lia|].
    cbn [app Spec.oct_run]. rewrite Hd1. f_equal.
    apply IH; [exact Hd'|cbn in Hn; lia|].
    destruct Hend as [Hend|Hend]; [left; cbn in Hend; lia|right; exact Hend].
Qed.

Lemma starts_octal_close (t2 more : str) :
  Spec.starts_octal t2 = false -> Spec.starts_octal (t2 ++ ch ")" :: more) = false.
Proof. destruct t2 as [|c t2]; [reflexivity|intros H; exact H]. Qed.

(** C7: escapes inside a literal string are decoded as the specification
    says, through the whole tokenizer.  On every block the tokens yielded
    are those of the specification's scan, which decodes every backslash
    inside a token with [Spec.escape].  In particular, in a token made of
    plain text, one escape and plain text: a backslash before one of the
    letters n, r, t, b, f, a parenthesis or a backslash gives the control
    character, parenthesis or backslash of the table, and the text goes on
    two characters later; a backslash before a run of one to three octal
    digits, the run being three digits long or followed by something that
    is not an octal digit, gives the character whose code the digits write
    in base 8, and the text goes on after the digits; a backslash before
    any other character gives that character, without the backslash. *)
Theorem escape_decoding :
  (forall content : str, _strings_from_stream content = Done (Spec.tokens content))
  /\ (forall (t t2 more : str) (x y : Z),
        Forall plain t -> Forall plain t2 ->
        Spec.control_of x = Some y ->
        _strings_from_stream (ch "(" :: t ++ backslash :: x :: t2 ++ ch ")" :: more)
        = more' <- _strings_from_stream more ;; Done ((t ++ y :: t2) :: more'))
  /\ (forall (t digits t2 more : str),
        Forall plain t -> Forall plain t2 ->
        digits <> [] -> (List.length digits <= 3)%nat ->
        Forall (fun d => Spec.octal_digit d = true) digits ->
        List.length digits = 3%nat \/ Spec.starts_octal t2 = false ->
        _strings_from_stream (ch "(" :: t ++ backslash :: digits ++ t2 ++ ch ")" :: more)
        = more' <- _strings_from_stream more ;;
          Done ((t ++ Spec.octal_value digits :: t2) :: more'))
  /\ (forall (t t2 more : str) (x : Z),
        Forall plain t -> Forall plain t2 ->
        Spec.control_of x = None -> Spec.octal_digit x = false ->
        _strings_from_stream (ch "(" :: t ++ backslash :: x :: t2 ++ ch ")" :: more)
        = more' <- _strings_from_stream more ;; Done ((t ++ x :: t2) :: more')).
Proof.
  split; [exact strings_from_stream_tokens|]. split; [|split].
  - intros t t2 more x y Ht Ht2 Hx.
    apply (strings_escape t (x :: t2 ++ ch ")" :: more) t2 more y 2 Ht Ht2); [|reflexivity].
    unfold Spec.escape. rewrite Hx. reflexivity.
  - intros t digits t2 more Ht Ht2 Hne Hlen Hd Hend.
    apply (strings_escape t (digits ++ t2 ++ ch ")" :: more) t2 more
             (Spec.octal_value digits) (S (List.length digits)) Ht Ht2).
    + destruct digits as [|d digits]; [congruence|].
      inversion Hd as [|? ? Hd1 Hd']; subst.
      assert (Hrun : Spec.oct_run 3 ((d :: digits) ++ t2 ++ ch ")" :: more) = d :: digits).
      { apply oct_run_app; [exact Hd|exact Hlen|].
        destruct Hend as [Hend|Hend]; [left; exact Hend|right].
        apply starts_octal_close. exact Hend. }
      unfold Spec.escape. cbn [app]. rewrite (octal_digit_no_letter d Hd1), Hd1.
      cbv zeta. cbn [app] in Hrun. rewrite Hrun. reflexivity.
    + replace (S (List.length digits) - 1)%nat with (List.length digits) by lia.
      rewrite skipn_app, skipn_all, Nat.sub_diag. reflexivity.
  - intros t t2 more x Ht Ht2 Hx Ho.
    apply (strings_escape t (x :: t2 ++ ch ")" :: more) t2 more x 2 Ht Ht2); [|reflexivity].
    unfold Spec.escape. rewrite Hx, Ho. reflexivity.
Qed.

(** The block [(\101)] holds one token, the letter A. *)
Lemma escape_decoding_witness :
  _strings_from_stream (ch "(" :: backslash :: pystr "101)") = Done [pystr "A"].
Proof.
  apply (proj1 (proj2 (proj2 escape_decoding)) [] (pystr "101") [] []).
  - constructor.
  - constructor.
  - discriminate.
  - cbn. lia.
  - repeat constructor.
  - left. reflexivity.
Defined.

(** C8: on every block the tokenizer terminates without raising: the fuel
    [S (length content)] is enough and the result is a list of tokens.  Every
    pass of the inner loop moves the index strictly forward and keeps it
    within the block.  A token that is still open at the end of the block is
    emitted with the text accumulated so far: when the specification's scan
    of the block ends inside a token, the tokenizer yields the closed tokens
    and then the text of the open one; so an opening parenthesis followed by
    plain text up to the end of the block yields that text. *)
Theorem tokenizer_total :
  (forall content : str, exists tokens, _strings_from_stream content = Done tokens)
  /\ (forall (content : str) (i : nat) (depth : Z) (chunk : str),
        (i < List.length content)%nat ->
        exists i' depth' chunk' brk,
          inner_body content i depth chunk = Done (i', depth', chunk', brk)
          /\ (i < i' <= List.length content)%nat)
  /\ (forall (content : str) (closed : list str) (depth : Z) (chunk : str),
        Spec.scan 0 Spec.Outside content = (closed, Spec.Inside depth chunk) ->
        _strings_from_stream content = Done (closed ++ [chunk]))
  /\ (forall junk t : str,
        Forall (fun c => c <> ch "(") junk -> Forall plain t ->
        _strings_from_stream (junk ++ ch "(" :: t) = Done [t]).
Proof.
  split; [|split; [|split]].
  - intros content. apply outer_while_total. lia.
  - intros content i depth chunk Hi.
    destruct (inner_body_advances content i depth chunk Hi)
      as (i' & d' & c' & brk & E & Hlt & _).
    eexists _, _, _, _; split; eassumption.
  - intros content closed depth chunk Hs.
    rewrite strings_from_stream_tokens. unfold Spec.tokens. rewrite Hs. reflexivity.
  - intros junk t Hj Ht.
    rewrite strings_from_stream_tokens. unfold Spec.tokens.
    rewrite (scan_junk junk _ Hj). cbn [Spec.scan]. rewrite Z.eqb_refl.
    rewrite <- (app_nil_r t) at 1. rewrite (scan_plain t 1 [] [] Ht). reflexivity.
Qed.

(** The block [(a(b] ends inside a token of depth 2; the token is emitted. *)
Lemma tokenizer_total_witness :
  _strings_from_stream (pystr "(a(b") = Done [pystr "a(b"].
Proof.
  apply (proj1 (proj2 (proj2 tokenizer_total)) (pystr "(a(b") [] 2 (pystr "a(b")).
  reflexivity.
Defined.

(** The escapes of the specification's examples, through the whole
    tokenizer: the one-letter escapes, [\101] and [\9]. *)
Example escape_examples :
  _strings_from_stream
    (pystr "(" ++ [backslash] ++ pystr "n" ++ [backslash] ++ pystr "t" ++ [backslash]
     ++ pystr "(" ++ [backslash] ++ pystr ")" ++ [backslash; backslash] ++ pystr ") ("
     ++ [backslash] ++ pystr "101) (" ++ [backslash] ++ pystr "9)")
  = Done [ [10; 9; ch "("; ch ")"; backslash]; pystr "A"; pystr "9" ].
Proof. vm_compute. reflexivity. Qed.

(** Nested parentheses stay inside one token. *)
Example nesting_example :
  _strings_from_stream (pystr "(a(b)c)") = Done [ pystr "a(b)c" ].
Proof. vm_compute. reflexivity. Qed.

End TokenizerFacts.

(** ** Answer extraction *)

Section AnswerFacts.

Lemma existsb_eqb_In (s : str) (x : Z) :
  existsb (fun c => c =? x) s = true <-> In x s.
Proof.
  rewrite existsb_exists. split.
  - intros (c & Hin & Hc). apply Z.eqb_eq in Hc. subst; exact Hin.
  - intros Hin. exists x. split; [exact Hin|apply Z.eqb_refl].
Qed.

Lemma contains_char (s : str) (x : Z) : PyStr.contains s [x] = true <-> In x s.
Proof. rewrite contains_singleton. apply existsb_eqb_In. Qed.

Lemma contains_char_false (s : str) (x : Z) : ~ In x s -> PyStr.contains s [x] = false.
Proof.
  intros H. destruct (PyStr.contains s [x]) eqn:E; [|reflexivity].
  apply contains_char in E. contradiction.
Qed.

Lemma startswith_char (c x : Z) (s : str) : PyStr.startswith (c :: s) [x] = (c =? x).
Proof. cbn. destruct s; apply andb_true_r. Qed.

Lemma rfind_from_absent (s : str) (x : Z) (i : nat) (best : Z) :
  ~ In x s -> PyStr.rfind_from s [x] i best = best.
Proof.
  revert i best; induction s as [|c s IH]; intros i best H; [reflexivity|].
  cbn [PyStr.rfind_from]. rewrite startswith_char.
  destruct (Z.eqb_spec c x) as [->|_]; [exfalso; apply H; left; reflexivity|].
  apply IH. intros Hin; apply H; right; exact Hin.
Qed.

Lemma rfind_from_last (pre post : str) (x : Z) (i : nat) (best : Z) :
  ~ In x post ->
  PyStr.rfind_from (pre ++ x :: post) [x] i best = Z.of_nat (i + List.length pre).
Proof.
  intros H. revert i best; induction pre as [|c pre IH]; intros i best.
  - cbn [app PyStr.rfind_from List.length]. rewrite startswith_char, Z.eqb_refl.
    rewrite rfind_from_absent by exact H. f_equal; lia.
  - cbn [app PyStr.rfind_from List.length]. rewrite IH. f_equal; lia.
Qed.

(** The text after the last occurrence of a one-character marker. *)
Lemma trailing_after_last (pre post : str) (x : Z) :
  ~ In x post -> trailing_after (pre ++ x :: post) [x] = PyStr.strip post.
Proof.
  intros H. unfold trailing_after, PyStr.rfind, PyStr.slice_from.
  rewrite rfind_from_last by exact H. cbn [Nat.add].
  replace (Z.to_nat (Z.of_nat (List.length pre) + 1)) with (List.length pre + 1)%nat by lia.
  rewrite skipn_app, skipn_all2 by lia.
  replace (List.length pre + 1 - List.length pre)%nat with 1%nat by lia.
  reflexivity.
Qed.

Lemma extract_answer_unfold (segment : str) :
  PyStr.strip segment <> [] ->
  extract_answer segment =
  if PyStr.contains (PyStr.strip segment) [ch "?"]
  then nonempty (trailing_after (PyStr.strip segment) [ch "?"])
  else if PyStr.contains (PyStr.strip segment) [ch "!"]
       then nonempty (trailing_after (PyStr.strip segment) [ch "!"])
       else Some (PyStr.strip segment).
Proof.
  intros H. unfold extract_answer.
  destruct (PyStr.strip segment) as [|c text] eqn:E; [congruence|].
  change (pystr "?") with [ch "?"]. change (pystr "!") with [ch "!"].
  cbn [marker_loop].
  destruct (PyStr.contains (c :: text) [ch "?"]).
  - destruct (trailing_after (c :: text) [ch "?"]); reflexivity.
  - destruct (PyStr.contains (c :: text) [ch "!"]); [|reflexivity].
    destruct (trailing_after (c :: text) [ch "!"]); reflexivity.
Qed.

(** C4, as the code has it: the question mark takes precedence.  For a
    fragment whose trimmed text is not empty: if it contains a question
    mark, the answer is the trimmed text after the last question mark, even
    when an exclamation mark follows; if it contains no question mark but an
    exclamation mark, the answer is the trimmed text after the last
    exclamation mark; in both cases there is no answer when that text is
    empty.  With neither mark the whole trimmed fragment is the answer. *)
Theorem extract_answer_question_mark_first :
  forall segment : str,
    PyStr.strip segment <> [] ->
    (forall pre post,
        PyStr.strip segment = pre ++ ch "?" :: post -> ~ In (ch "?") post ->
        extract_answer segment = nonempty (PyStr.strip post))
    /\ (forall pre post,
           ~ In (ch "?") (PyStr.strip segment) ->
           PyStr.strip segment = pre ++ ch "!" :: post -> ~ In (ch "!") post ->
           extract_answer segment = nonempty (PyStr.strip post))
    /\ (~ In (ch "?") (PyStr.strip segment) -> ~ In (ch "!") (PyStr.strip segment) ->
        extract_answer segment = Some (PyStr.strip segment)).
Proof.
  intros segment Hne. rewrite (extract_answer_unfold segment Hne).
  split; [|split].
  - intros pre post E Hpost. rewrite E.
    replace (PyStr.contains (pre ++ ch "?" :: post) [ch "?"]) with true
      by (symmetry; apply contains_char, in_elt).
    rewrite trailing_after_last by exact Hpost. reflexivity.
  - intros pre post Hq E Hpost.
    rewrite (contains_char_false _ _ Hq). rewrite E.
    replace (PyStr.contains (pre ++ ch "!" :: post) [ch "!"]) with true
      by (symmetry; apply contains_char, in_elt).
    rewrite trailing_after_last by exact Hpost. reflexivity.
  - intros Hq Hb.
    rewrite (contains_char_false _ _ Hq), (contains_char_false _ _ Hb). reflexivity.
Qed.

(** On the fragment of the end-to-end example the answer keeps its
    exclamation mark. *)
Lemma extract_answer_question_mark_first_witness :
  extract_answer (pystr "What is 2+2? 4!") = Some (pystr "4!").
Proof.
  apply (proj1 (extract_answer_question_mark_first (pystr "What is 2+2? 4!")
                  ltac:(vm_compute; discriminate))
           (pystr "What is 2+2") (pystr " 4!")).
  - reflexivity.
  - vm_compute. intuition discriminate.
Defined.

(** C4 as stated fails: on this fragment the last mark is the exclamation
    mark and nothing follows it, so the specification's rule gives no
    answer, while the code answers with the text after the question mark. *)
Lemma extract_answer_last_mark_counterexample :
  extract_answer (pystr "What is 2+2? 4!") = Some (pystr "4!")
  /\ Spec.extract_answer_last_mark (pystr "What is 2+2? 4!") = None.
Proof. split; vm_compute; reflexivity. Qed.

End AnswerFacts.

(** ** Question numbering and entries *)

Section QuestionFacts.

Lemma bounded_steps_snoc (l : list Z) (x : Z) :
  bounded_steps l ->
  (forall pre a, l = pre ++ [a] -> x <= a + 1) ->
  bounded_steps (l ++ [x]).
Proof.
  induction l as [|a [|b tl] IH]; intros Hb Hlast.
  - exact I.
  - cbn. split; [apply (Hlast [] a); reflexivity|exact I].
  - destruct Hb as [Hab Hb]. change ((a :: b :: tl) ++ [x]) with (a :: b :: (tl ++ [x])).
    split; [exact Hab|]. apply IH; [exact Hb|].
    intros pre a' E. apply (Hlast (a :: pre) a'). rewrite E. reflexivity.
Qed.

Lemma numbers_snoc (entries : list entry) (number_text answer : str) :
  numbers (entries ++ [(number_text, answer)]) = numbers entries ++ [PyStr.int number_text].
Proof. unfold numbers. rewrite map_app. reflexivity. Qed.

(** The loop keeps the steps bounded: the expected number never exceeds the
    last emitted number by more than one, and a match is only accepted when
    its number is at most the expected one. *)
Lemma questions_loop_bounded (matches : list (str * str)) :
  forall (expected_number : option Z) (entries : list entry),
    bounded_steps (numbers entries) ->
    match expected_number with
    | None => entries = []
    | Some e => forall pre a, numbers entries = pre ++ [a] -> e <= a + 1
    end ->
    bounded_steps (numbers (questions_loop matches expected_number entries)).
Proof.
  induction matches as [|[number_text fragment] matches IH];
    intros expected entries Hb Hinv; [exact Hb|].
  cbn [questions_loop].
  destruct (PyStr.strip fragment) as [|f0 frag] eqn:Ef; [apply IH; assumption|].
  set (number := PyStr.int number_text).
  assert (Haccept : forall expected',
             expected' = number ->
             (forall pre a, numbers entries = pre ++ [a] -> number <= a + 1) ->
             bounded_steps
               (numbers
                  match extract_answer (f0 :: frag) with
                  | None => questions_loop matches (Some expected') entries
                  | Some answer =>
                      questions_loop matches (Some (number + 1))
                        (entries ++ [(number_text, clean_answer answer)])
                  end)).
  { intros expected' -> Hlast.
    destruct (extract_answer (f0 :: frag)) as [answer|].
    - apply IH.
      + rewrite numbers_snoc. apply bounded_steps_snoc; assumption.
      + intros pre a E. rewrite numbers_snoc in E.
        apply app_inj_tail in E as [_ <-]. fold number. lia.
    - apply IH; assumption. }
  destruct expected as [e|].
  - destruct (Z.eqb_spec number e) as [E|E]; cbn [negb].
    + apply Haccept; [congruence|]. intros pre a Ha. specialize (Hinv pre a Ha). lia.
    + destruct (Z.gtb_spec number e) as [Hgt|Hle]; [exact Hb|].
      apply Haccept; [reflexivity|].
      intros pre a Ha. specialize (Hinv pre a Ha). lia.
  - subst entries. apply Haccept; [reflexivity|].
    intros [|? ?] a Ha; discriminate Ha.
Qed.

(** C6, as the code has it: in emission order a question number never
    exceeds the one before it by more than one.  Numbers may fall: a match
    whose number is below the expected one re-synchronises the counter and is
    emitted, so the sequence need not be non-decreasing. *)
Theorem parse_questions_bounded_steps :
  forall body : str, bounded_steps (numbers (_parse_questions body)).
Proof.
  intros body. unfold _parse_questions.
  apply questions_loop_bounded; [exact I|reflexivity].
Qed.

(** C6 as stated fails: a body numbered 3 then 1 yields both entries, in
    that order. *)
Lemma parse_questions_order_counterexample :
  numbers (_parse_questions (pystr "3. Q3? A3 1. Q1? A1")) = [3; 1]
  /\ ~ nondecreasing (numbers (_parse_questions (pystr "3. Q3? A3 1. Q1? A1"))).
Proof.
  assert (E : numbers (_parse_questions (pystr "3. Q3? A3 1. Q1? A1")) = [3; 1])
    by (vm_compute; reflexivity).
  split; [exact E|]. rewrite E. cbn. lia.
Qed.

(** C3, as the code has it: the body of the example yields three entries,
    numbered 1, 2 and 1 with the answers A1, A2 and X.  Parsing does not
    stop after entry 2: the trailing match numbered 1 is emitted as the
    third entry. *)
Theorem parse_questions_restart :
  _parse_questions (pystr "1. Q1? A1 2. Q2? A2 1. Boilerplate? X")
  = [ (pystr "1", pystr "A1"); (pystr "2", pystr "A2"); (pystr "1", pystr "X") ].
Proof. vm_compute. reflexivity. Qed.

(** C3 as stated fails: the result is not the two entries numbered 1 and 2. *)
Lemma parse_questions_restart_counterexample :
  _parse_questions (pystr "1. Q1? A1 2. Q2? A2 1. Boilerplate? X")
  <> [ (pystr "1", pystr "A1"); (pystr "2", pystr "A2") ].
Proof. vm_compute. discriminate. Qed.

(** Parsing stops at a match whose number is above the expected one. *)
Example parse_questions_skip_stops :
  _parse_questions (pystr "1. Q1? A1 2. Q2? A2 5. Q5? A5 3. Q3? A3")
  = [ (pystr "1", pystr "A1"); (pystr "2", pystr "A2") ].
Proof. vm_compute. reflexivity. Qed.

(** The answer [extract_answer] returns is never empty. *)
Lemma extract_answer_nonempty (segment answer : str) :
  extract_answer segment = Some answer -> answer <> [].
Proof.
  unfold extract_answer.
  destruct (PyStr.strip segment) as [|c text]; [discriminate|].
  cbn [marker_loop].
  destruct (PyStr.contains (c :: text) (pystr "?")).
  { destruct (trailing_after (c :: text) (pystr "?")); intros H; inversion H; discriminate. }
  destruct (PyStr.contains (c :: text) (pystr "!")).
  { destruct (trailing_after (c :: text) (pystr "!")); intros H; inversion H; discriminate. }
  intros H; inversion H; discriminate.
Qed.

(** Every entry the loop adds is the cleanup of an extracted answer, which
    is not empty before the cleanup. *)
Lemma questions_loop_entries (matches : list (str * str)) :
  forall (expected_number : option Z) (entries : list entry) (e : entry),
    In e (questions_loop matches expected_number entries) ->
    In e entries
    \/ exists fragment answer,
        extract_answer fragment = Some answer /\ answer <> []
        /\ snd e = clean_answer answer.
Proof.
  induction matches as [|[number_text fragment] matches IH];
    intros expected entries e Hin; [left; exact Hin|].
  cbn [questions_loop] in Hin.
  destruct (PyStr.strip fragment) as [|f0 frag] eqn:Ef; [exact (IH _ _ _ Hin)|].
  assert (Haccept : forall expected',
             In e match extract_answer (f0 :: frag) with
                  | None => questions_loop matches (Some expected') entries
                  | Some answer =>
                      questions_loop matches (Some (PyStr.int number_text + 1))
                        (entries ++ [(number_text, clean_answer answer)])
                  end ->
             In e entries
             \/ exists fragment answer,
                 extract_answer fragment = Some answer /\ answer <> []
                 /\ snd e = clean_answer answer).
  { intros expected' H.
    destruct (extract_answer (f0 :: frag)) as [answer|] eqn:Ea; [|exact (IH _ _ _ H)].
    destruct (IH _ _ _ H) as [Hold|Hnew]; [|right; exact Hnew].
    apply in_app_or in Hold as [Hold|[<-|[]]]; [left; exact Hold|].
    right. exists (f0 :: frag), answer.
    split; [exact Ea|split; [exact (extract_answer_nonempty _ _ Ea)|reflexivity]]. }
  destruct expected as [x|]; [|exact (Haccept _ Hin)].
  destruct (negb (PyStr.int number_text =? x)); [|exact (Haccept _ Hin)].
  destruct (PyStr.int number_text >? x); [left; exact Hin|exact (Haccept _ Hin)].
Qed.

Lemma parse_questions_entries (body : str) (e : entry) :
  In e (_parse_questions body) ->
  exists fragment answer,
    extract_answer fragment = Some answer /\ answer <> [] /\ snd e = clean_answer answer.
Proof.
  intros H. destruct (questions_loop_entries _ _ _ _ H) as [[]|Hnew]. exact Hnew.
Qed.

(** C5 fails on the code: the answer is checked before the cleanup only.
    The fragment [Q? |] has the extracted answer [|], which is not empty;
    the cleanup strips the bar and the entry is emitted with an empty
    answer. *)
Theorem parse_questions_empty_answer :
  extract_answer (pystr "Q? |") = Some (pystr "|")
  /\ clean_answer (pystr "|") = []
  /\ _parse_questions (pystr "1. Q? |") = [ (pystr "1", []) ].
Proof. repeat split; vm_compute; reflexivity. Qed.

End QuestionFacts.

(** ** Rounds *)

Section RoundFacts.

Lemma round_of_section_nonempty (section : str) (r : round) :
  round_of_section section = Some r -> snd r <> [].
Proof.
  unfold round_of_section.
  destruct (Re.search Re.no_flags question_start_pattern section); [|discriminate].
  destruct (_parse_questions _); [discriminate|].
  intros H; inversion H; discriminate.
Qed.

Lemma rounds_loop_nonempty (text : str) (matches : list Re.rematch) :
  forall rounds : list round,
    Forall (fun r : round => snd r <> []) rounds ->
    Forall (fun r : round => snd r <> []) (rounds_loop text matches rounds).
Proof.
  induction matches as [|m matches IH]; intros rounds H; [exact H|].
  cbn [rounds_loop].
  destruct (round_of_section (PyStr.strip (Re.group text m 1))) as [r|] eqn:E;
    [|apply IH; exact H].
  apply IH, Forall_app. split; [exact H|].
  constructor; [exact (round_of_section_nonempty _ _ E)|constructor].
Qed.

Lemma tiebreakers_nonempty (text : str) (rounds : list round) :
  Forall (fun r : round => snd r <> []) rounds ->
  Forall (fun r : round => snd r <> []) (tiebreakers text rounds).
Proof.
  intros H. unfold tiebreakers.
  destruct (Re.search ROUND_FLAGS tiebreakers_pattern text); [|exact H].
  destruct (Re.search Re.no_flags question_start_pattern _); [|exact H].
  destruct (_parse_questions _) eqn:E; [exact H|].
  apply Forall_app. split; [exact H|].
  constructor; [discriminate|constructor].
Qed.

(** C10: no round of the result has an empty entry list.  A section whose
    body yields no entry, numbered or tiebreakers, is left out. *)
Theorem parse_rounds_no_empty_round :
  forall (text : str) (r : round), In r (parse_rounds text) -> snd r <> [].
Proof.
  intros text r Hin.
  assert (H : Forall (fun r : round => snd r <> []) (parse_rounds text)).
  { unfold parse_rounds. apply tiebreakers_nonempty, rounds_loop_nonempty. constructor. }
  rewrite Forall_forall in H. exact (H r Hin).
Qed.

(** A document whose first round has a question without an answer: only the
    second round is in the result. *)
Lemma parse_rounds_no_empty_round_witness :
  snd (pystr "Round 2: B", [ (pystr "1", pystr "A") ]) <> [].
Proof.
  apply (parse_rounds_no_empty_round (pystr "Round 1: Empty 1. Q? Round 2: B 1. Q? A")).
  vm_compute. left. reflexivity.
Defined.

Example parse_rounds_drops_empty_round :
  parse_rounds (pystr "Round 1: Empty 1. Q? Round 2: B 1. Q? A Tiebreakers 1. Q?")
  = [ (pystr "Round 2: B", [ (pystr "1", pystr "A") ]) ].
Proof. vm_compute. reflexivity. Qed.

End RoundFacts.

(** ** The pipeline and [main] *)

Section PipelineFacts.

Variable zlib_decompress : str -> option str.
Variable with_suffix : string -> string -> string.

Lemma strings_from_stream_total (content : str) :
  exists tokens, Tokenizer._strings_from_stream content = Done tokens.
Proof. apply outer_while_total. lia. Qed.

Lemma streams_loop_total (raws : list str) :
  exists tokens, streams_loop zlib_decompress raws = Done tokens.
Proof.
  induction raws as [|raw raws [more IH]]; [eexists; reflexivity|].
  cbn [streams_loop]. destruct (zlib_decompress raw) as [d|]; [|eexists; exact IH].
  destruct (strings_from_stream_total d) as [tokens ->]. rewrite IH.
  eexists; reflexivity.
Qed.

(** Text extraction never raises: every buffer has a flattened document. *)
Lemma text_of_bytes_total (data : str) :
  exists document_text, text_of_bytes zlib_decompress data = Done document_text.
Proof.
  unfold text_of_bytes, read_stream_strings.
  destruct (streams_loop_total (raw_streams data)) as [tokens ->].
  eexists; reflexivity.
Qed.

(** C2: for every readable input the flattened document exists, and when it
    yields no round at all [main] ends through [parser.error] with the
    no-rounds message and writes no file.  Conversely a run that returns
    status 0 has written the rows of a rubric that is not empty. *)
Theorem zero_rounds_is_failure :
  forall (fs : filesystem) (args : arguments) (data : str),
    files fs (pdf args) = Some data ->
    exists document_text,
      extract_text zlib_decompress fs (pdf args) = Done document_text
      /\ (parse_rounds document_text = [] ->
          main zlib_decompress with_suffix fs args
          = Done {| ended := ParserError no_rounds_message; written := None |})
      /\ (forall r,
             main zlib_decompress with_suffix fs args = Done r ->
             ended r = Returned 0 ->
             parse_rounds document_text <> []
             /\ exists out, written r = Some (out, csv_rows (parse_rounds document_text))).
Proof.
  intros fs args data Hfile.
  destruct (text_of_bytes_total data) as [doc Hdoc].
  assert (Hx : extract_text zlib_decompress fs (pdf args) = Done doc).
  { unfold extract_text. rewrite Hfile. exact Hdoc. }
  exists doc. split; [exact Hx|].
  unfold main. rewrite Hfile, Hx. cbn [bind]. split.
  - intros ->. reflexivity.
  - intros r. destruct (parse_rounds doc) as [|r0 rounds] eqn:Er.
    + unfold parser_error. intros H; inversion H; subst; cbn. discriminate.
    + unfold write_csv.
      destruct (write_refused fs _) as [strerror|].
      * unfold parser_error. intros H; inversion H; subst; cbn. discriminate.
      * intros H _; inversion H; subst; cbn [written].
        split; [discriminate|]. eexists; reflexivity.
Qed.

End PipelineFacts.

Lemma zero_rounds_is_failure_witness :
  main (fun _ => None) (fun p suffix => String.append p suffix) empty_pdf_fs
       {| pdf := "quiz.pdf"; output := None |}
  = Done {| ended := ParserError no_rounds_message; written := None |}.
Proof.
  destruct (zero_rounds_is_failure (fun _ => None) (fun p suffix => String.append p suffix)
              empty_pdf_fs {| pdf := "quiz.pdf"; output := None |} (pystr "%PDF-1.4")
              eq_refl) as (doc & Hdoc & Hfail & _).
  apply Hfail.
  vm_compute in Hdoc. injection Hdoc as <-. vm_compute. reflexivity.
Defined.

(** ** End to end *)

(** C1, as the code has it: the first answer keeps its exclamation mark,
    because the text after the last question mark of the fragment is [4!].
    For every container with exactly one stream that inflates to the
    example block, the result is the single round [Round 1: Warmup] with the
    entries [("1", "4!")] and [("2", "Paris")]. *)
Theorem end_to_end_example :
  forall (zlib_decompress : str -> option str) (data raw_stream : str),
    raw_streams data = [raw_stream] ->
    zlib_decompress raw_stream = Some example_block ->
    rubric_of_bytes zlib_decompress data
    = Done [ (pystr "Round 1: Warmup",
              [ (pystr "1", pystr "4!"); (pystr "2", pystr "Paris") ]) ].
Proof.
  intros zlib_decompress data raw_stream Hraw Hz.
  unfold rubric_of_bytes, text_of_bytes, read_stream_strings.
  rewrite Hraw. cbn [streams_loop]. rewrite Hz.
  vm_compute. reflexivity.
Qed.

Lemma end_to_end_example_witness :
  rubric_of_bytes example_inflate example_container
  = Done [ (pystr "Round 1: Warmup",
            [ (pystr "1", pystr "4!"); (pystr "2", pystr "Paris") ]) ].
Proof.
  apply (end_to_end_example example_inflate example_container (pystr "XYZ"));
    vm_compute; reflexivity.
Defined.

(** C1 as stated fails: on the example container the entries are not
    [("1", "4")] and [("2", "Paris")]. *)
Lemma end_to_end_example_counterexample :
  raw_streams example_container = [pystr "XYZ"]
  /\ example_inflate (pystr "XYZ") = Some example_block
  /\ rubric_of_bytes example_inflate example_container
     <> Done [ (pystr "Round 1: Warmup",
                [ (pystr "1", pystr "4"); (pystr "2", pystr "Paris") ]) ].
Proof. split; [|split]; vm_compute; [reflexivity | reflexivity | discriminate]. Qed.

(** ** The sanitizer *)

Section WhitespaceCollapse.
Import Re.

Lemma takewhile_length (t : Z -> bool) (s : str) :
  (List.length (PyStr.takewhile t s) <= List.length s)%nat.
Proof. induction s as [|c s IH]; cbn; [lia|]. destruct (t c); cbn; lia. Qed.

Lemma skipn_takewhile (t : Z -> bool) (s : str) :
  skipn (List.length (PyStr.takewhile t s)) s = PyStr.dropwhile t s.
Proof. induction s as [|c s IH]; cbn; [reflexivity|]. destruct (t c); cbn; auto. Qed.

(** A greedy star whose continuation always succeeds takes the whole run. *)
Lemma rep_greedy_star (t : Z -> bool) (k : nat -> option Z -> str -> option cursor) :
  (forall p pv rs, k p pv rs <> None) ->
  forall (rs : str) (p : nat) (pv : option Z),
  exists pv',
    rep_greedy t 0 None p pv rs k
    = k (p + List.length (PyStr.takewhile t rs))%nat pv' (PyStr.dropwhile t rs).
Proof.
  intros Hk. induction rs as [|c rs IH]; intros p pv.
  - exists pv. cbn. rewrite Nat.add_0_r. reflexivity.
  - cbn [rep_greedy PyStr.takewhile PyStr.dropwhile]. destruct (t c); cbn [andb can_take].
    + destruct (IH (S p) (Some c)) as [pv' E].
      change (Nat.pred 0) with 0%nat. change (option_map Nat.pred None) with (@None nat).
      rewrite E. exists pv'. cbn [List.length].
      replace (p + S (List.length (PyStr.takewhile t rs)))%nat
        with (S p + List.length (PyStr.takewhile t rs))%nat by lia.
      destruct (k _ pv' (PyStr.dropwhile t rs)) eqn:Ek; [reflexivity|].
      exfalso. exact (Hk _ _ _ Ek).
    + exists pv. cbn. rewrite Nat.add_0_r. reflexivity.
Qed.

(** One attempt of [\s+]: it succeeds on a whitespace character and ends
    after the run. *)
Lemma match_here_ws (p : nat) (pv : option Z) (rs : str) :
  match_here no_flags WHITESPACE_COLLAPSE p pv rs false =
  match rs with
  | c :: rs' =>
      if PyStr.is_space c
      then Some {| m_start := p;
                   m_end := S p + List.length (PyStr.takewhile PyStr.is_space rs');
                   m_caps := [] |}
      else None
  | [] => None
  end.
Proof.
  unfold match_here, WHITESPACE_COLLAPSE, plus. cbn [rmatch pos prev rest caps andb].
  destruct rs as [|c rs]; [reflexivity|].
  cbn [rep_greedy cls_test]. destruct (PyStr.is_space c); [|reflexivity].
  cbn [andb can_take Nat.eqb].
  change (Nat.pred 1) with 0%nat. change (option_map Nat.pred None) with (@None nat).
  edestruct (rep_greedy_star PyStr.is_space) as [pv' E];
    [|rewrite E; reflexivity].
  intros; discriminate.
Qed.

Lemma finditer_ws_nil (p : nat) (pv : option Z) :
  finditer_from no_flags WHITESPACE_COLLAPSE p pv [] 0 = [].
Proof. cbn [finditer_from]. rewrite match_here_ws. reflexivity. Qed.

Lemma finditer_ws_other (p : nat) (pv : option Z) (c : Z) (rs : str) :
  PyStr.is_space c = false ->
  finditer_from no_flags WHITESPACE_COLLAPSE p pv (c :: rs) 0
  = finditer_from no_flags WHITESPACE_COLLAPSE (S p) (Some c) rs 0.
Proof. intros H. cbn [finditer_from]. rewrite match_here_ws, H. reflexivity. Qed.

Lemma finditer_ws_space (p : nat) (pv : option Z) (c : Z) (rs : str) :
  PyStr.is_space c = true ->
  finditer_from no_flags WHITESPACE_COLLAPSE p pv (c :: rs) 0
  = {| m_start := p;
       m_end := S p + List.length (PyStr.takewhile PyStr.is_space rs);
       m_caps := [] |}
    :: finditer_from no_flags WHITESPACE_COLLAPSE (S p) (Some c) rs
         (List.length (PyStr.takewhile PyStr.is_space rs)).
Proof.
  intros H. cbn [finditer_from]. rewrite match_here_ws, H. cbn [m_end].
  destruct (Nat.eqb_spec (S p + List.length (PyStr.takewhile PyStr.is_space rs)) p); [lia|].
  do 2 f_equal. lia.
Qed.

Lemma finditer_skip (fl : flags) (r : regex) (k : nat) :
  forall (rs : str) (p : nat) (pv : option Z),
    (k <= List.length rs)%nat ->
    exists pv', finditer_from fl r p pv rs k = finditer_from fl r (p + k) pv' (skipn k rs) 0.
Proof.
  induction k as [|k IH]; intros rs p pv Hk.
  - exists pv. rewrite Nat.add_0_r. reflexivity.
  - destruct rs as [|c rs]; [cbn in Hk; lia|].
    destruct (IH rs (S p) (Some c)) as [pv' E]; [cbn in Hk; lia|].
    exists pv'. cbn [finditer_from skipn]. rewrite E. f_equal. lia.
Qed.

Lemma finditer_ws_head (rs : str) :
  forall (p : nat) (pv : option Z),
    match finditer_from no_flags WHITESPACE_COLLAPSE p pv rs 0 with
    | [] => True
    | m :: _ => (p <= m_start m <= m_end m)%nat
    end.
Proof.
  induction rs as [|c rs IH]; intros p pv.
  - rewrite finditer_ws_nil. exact I.
  - destruct (PyStr.is_space c) eqn:E.
    + rewrite finditer_ws_space by exact E. cbn. lia.
    + rewrite finditer_ws_other by exact E. specialize (IH (S p) (Some c)).
      destruct (finditer_from _ _ _ _ _ _); [exact I|lia].
Qed.

Lemma splice_shift (repl : str) (c : Z) (rs : str) (p : nat) (ms : list rematch) :
  match ms with
  | [] => True
  | m :: _ => (S p <= m_start m <= m_end m)%nat
  end ->
  splice repl (c :: rs) p ms = c :: splice repl rs (S p) ms.
Proof.
  destruct ms as [|m ms]; intros H; [reflexivity|].
  cbn [splice].
  replace (m_start m - p)%nat with (S (m_start m - S p)) by lia.
  replace (m_end m - p)%nat with (S (m_end m - S p)) by lia.
  reflexivity.
Qed.

Lemma collapse_from_run (s : str) :
  Spec.collapse_from true s = Spec.collapse_from false (PyStr.dropwhile PyStr.is_space s).
Proof.
  induction s as [|c s IH]; [reflexivity|].
  cbn [Spec.collapse_from PyStr.dropwhile].
  destruct (PyStr.is_space c) eqn:E; [exact IH|].
  cbn [Spec.collapse_from]. rewrite E. reflexivity.
Qed.

Lemma dropwhile_length (t : Z -> bool) (s : str) :
  (List.length (PyStr.dropwhile t s) <= List.length s)%nat.
Proof. induction s as [|c s IH]; cbn; [lia|]. destruct (t c); cbn; lia. Qed.

Lemma splice_ws_collapse (n : nat) :
  forall (rs : str) (p : nat) (pv : option Z),
    (List.length rs <= n)%nat ->
    splice [32] rs p (finditer_from no_flags WHITESPACE_COLLAPSE p pv rs 0)
    = Spec.collapse_from false rs.
Proof.
  induction n as [|n IH]; intros rs p pv Hn.
  - destruct rs; [|cbn in Hn; lia]. rewrite finditer_ws_nil. reflexivity.
  - destruct rs as [|c rs]; [rewrite finditer_ws_nil; reflexivity|].
    cbn [List.length] in Hn. cbn [Spec.collapse_from].
    destruct (PyStr.is_space c) eqn:E.
    + rewrite finditer_ws_space by exact E. cbn [splice m_start m_end].
      rewrite Nat.sub_diag. cbn [firstn app].
      replace (S p + List.length (PyStr.takewhile PyStr.is_space rs) - p)%nat
        with (S (List.length (PyStr.takewhile PyStr.is_space rs))) by lia.
      cbn [skipn].
      destruct (finditer_skip no_flags WHITESPACE_COLLAPSE
                  (List.length (PyStr.takewhile PyStr.is_space rs)) rs (S p) (Some c)
                  (takewhile_length _ _)) as [pv' ->].
      rewrite skipn_takewhile.
      rewrite IH by (pose proof (dropwhile_length PyStr.is_space rs); lia).
      rewrite collapse_from_run. reflexivity.
    + rewrite finditer_ws_other by exact E.
      rewrite splice_shift by apply finditer_ws_head.
      rewrite IH by lia. reflexivity.
Qed.

(** Substituting a space for [\s+] collapses every whitespace run. *)
Lemma sub_ws_collapse (s : str) :
  Re.sub no_flags WHITESPACE_COLLAPSE (pystr " ") s = Spec.collapse s.
Proof. apply (splice_ws_collapse (List.length s)). lia. Qed.

End WhitespaceCollapse.

Section StringFacts.

Lemma dropwhile_split (t : Z -> bool) (s : str) :
  exists l, s = l ++ PyStr.dropwhile t s /\ Forall (fun c => t c = true) l.
Proof.
  induction s as [|c s (l & E & Hl)]; [exists []; split; [reflexivity|constructor]|].
  cbn [PyStr.dropwhile]. destruct (t c) eqn:Ec.
  - exists (c :: l). split; [cbn; f_equal; exact E|constructor; assumption].
  - exists []. split; [reflexivity|constructor].
Qed.

Lemma dropwhile_idempotent (t : Z -> bool) (s : str) :
  PyStr.dropwhile t (PyStr.dropwhile t s) = PyStr.dropwhile t s.
Proof.
  induction s as [|c s IH]; [reflexivity|].
  cbn [PyStr.dropwhile]. destruct (t c) eqn:Ec; [exact IH|].
  cbn [PyStr.dropwhile]. rewrite Ec. reflexivity.
Qed.

Lemma dropwhile_snoc_stop (t : Z -> bool) (l : str) (x : Z) :
  t x = false -> exists w, PyStr.dropwhile t (l ++ [x]) = w ++ [x].
Proof.
  intros Hx. induction l as [|c l [w IH]].
  - exists []. cbn. rewrite Hx. reflexivity.
  - cbn [app PyStr.dropwhile]. destruct (t c).
    + exists w. exact IH.
    + exists (c :: l). reflexivity.
Qed.

(** The trimmed string sits inside the original one. *)
Lemma strip_infix (s : str) : exists l r, s = l ++ PyStr.strip s ++ r.
Proof.
  unfold PyStr.strip, PyStr.rstrip, PyStr.lstrip.
  destruct (dropwhile_split PyStr.is_space s) as (l & El & _).
  destruct (dropwhile_split PyStr.is_space (rev (PyStr.dropwhile PyStr.is_space s)))
    as (r & Er & _).
  exists l, (rev r). rewrite <- rev_app_distr, <- Er, rev_involutive. exact El.
Qed.

Lemma strip_idempotent (s : str) : PyStr.strip (PyStr.strip s) = PyStr.strip s.
Proof.
  unfold PyStr.strip, PyStr.rstrip, PyStr.lstrip.
  set (u := PyStr.dropwhile PyStr.is_space s).
  assert (Hl : PyStr.dropwhile PyStr.is_space (rev (PyStr.dropwhile PyStr.is_space (rev u)))
               = rev (PyStr.dropwhile PyStr.is_space (rev u))).
  { destruct u as [|x u'] eqn:Eu; [reflexivity|].
    assert (Hx : PyStr.is_space x = false).
    { subst u. destruct s as [|c s]; [discriminate|].
      pose proof (dropwhile_idempotent PyStr.is_space (c :: s)) as Hi.
      rewrite Eu in Hi. cbn [PyStr.dropwhile] in Hi.
      destruct (PyStr.is_space x) eqn:E; [|reflexivity].
      exfalso. pose proof (dropwhile_length PyStr.is_space u') as Hlen.
      rewrite Hi in Hlen. cbn in Hlen. lia. }
    cbn [rev]. destruct (dropwhile_snoc_stop PyStr.is_space (rev u') x Hx) as [w ->].
    rewrite rev_app_distr. cbn [rev app PyStr.dropwhile]. rewrite Hx. reflexivity. }
  rewrite Hl, rev_involutive, dropwhile_idempotent. reflexivity.
Qed.

Lemma startswith_app (a r pat : str) :
  PyStr.startswith a pat = true -> PyStr.startswith (a ++ r) pat = true.
Proof.
  revert a; induction pat as [|x pat IH]; intros a H; [destruct (a ++ r); reflexivity|].
  destruct a as [|c a]; [discriminate|].
  cbn in *. apply andb_true_iff in H as [-> H]. cbn. exact (IH _ H).
Qed.

Lemma contains_cons (c : Z) (s pat : str) :
  PyStr.contains (c :: s) pat = PyStr.startswith (c :: s) pat || PyStr.contains s pat.
Proof. reflexivity. Qed.

Lemma contains_suffix (l s pat : str) :
  PyStr.contains (l ++ s) pat = false -> PyStr.contains s pat = false.
Proof.
  induction l as [|c l IH]; [auto|].
  cbn [app]. rewrite contains_cons. intros H. apply orb_false_iff in H as [_ H]. auto.
Qed.

Lemma contains_prefix (s r pat : str) :
  pat <> [] -> PyStr.contains (s ++ r) pat = false -> PyStr.contains s pat = false.
Proof.
  intros Hp. induction s as [|c s IH]; intros H.
  - destruct pat; [congruence|reflexivity].
  - cbn [app] in H. rewrite contains_cons in *. apply orb_false_iff in H as [H1 H2].
    apply orb_false_iff. split; [|auto].
    destruct (PyStr.startswith (c :: s) pat) eqn:E; [|reflexivity].
    apply (startswith_app _ r) in E. cbn [app] in E. congruence.
Qed.

Lemma contains_strip (s pat : str) :
  pat <> [] -> PyStr.contains s pat = false -> PyStr.contains (PyStr.strip s) pat = false.
Proof.
  intros Hp H. destruct (strip_infix s) as (l & r & E). rewrite E in H.
  apply contains_suffix in H. exact (contains_prefix _ _ _ Hp H).
Qed.

Lemma Forall_strip (P : Z -> Prop) (s : str) : Forall P s -> Forall P (PyStr.strip s).
Proof.
  intros H. destruct (strip_infix s) as (l & r & E). rewrite E in H.
  apply Forall_app in H as [_ H]. apply Forall_app in H as [H _]. exact H.
Qed.

Lemma spaced_weaken (b : bool) (s : str) : spaced b s -> spaced false s.
Proof. destruct s; [auto|]. cbn. intros [_ H]. split; [discriminate|exact H]. Qed.

Lemma spaced_suffix (l s : str) : forall b, spaced b (l ++ s) -> spaced false s.
Proof.
  induction l as [|c l IH]; intros b H; [exact (spaced_weaken _ _ H)|].
  cbn in H. destruct H as [_ H]. exact (IH _ H).
Qed.

Lemma spaced_prefix (s r : str) : forall b, spaced b (s ++ r) -> spaced b s.
Proof.
  induction s as [|c s IH]; intros b H; [exact I|].
  cbn in *. destruct H as [H1 H2]. split; [exact H1|exact (IH _ H2)].
Qed.

Lemma spaced_strip (b : bool) (s : str) : spaced b s -> spaced false (PyStr.strip s).
Proof.
  intros H. destruct (strip_infix s) as (l & r & E). rewrite E in H.
  apply spaced_suffix in H. exact (spaced_prefix _ _ _ H).
Qed.

End StringFacts.

Section SanitizerFacts.

Lemma startswith_cons (c x : Z) (s q : str) :
  PyStr.startswith (c :: s) (x :: q) = (c =? x) && PyStr.startswith s q.
Proof. reflexivity. Qed.

(** *** [str.replace] *)

Lemma replace_absent (old new s : str) :
  PyStr.contains s old = false -> PyStr.replace s old new = s.
Proof.
  unfold PyStr.replace. induction s as [|c s IH]; intros H; [reflexivity|].
  rewrite contains_cons in H. apply orb_false_iff in H as [H1 H2].
  cbn [PyStr.replace_from]. rewrite H1, IH by exact H2. reflexivity.
Qed.

Lemma replace_Forall (P : Z -> Prop) (old new : str) :
  Forall P new ->
  forall (s : str) (k : nat), Forall P s -> Forall P (PyStr.replace_from old new s k).
Proof.
  intros Hnew. induction s as [|c s IH]; intros k H; [constructor|].
  inversion H as [|? ? Hc Hs]; subst. cbn [PyStr.replace_from].
  destruct k; [|auto].
  destruct (PyStr.startswith (c :: s) old).
  - apply Forall_app. split; auto.
  - constructor; auto.
Qed.

(** Replacing one character by one character is a map. *)
Lemma replace_char (x y : Z) (s : str) :
  PyStr.replace s [x] [y] = map (fun c => if c =? x then y else c) s.
Proof.
  unfold PyStr.replace. induction s as [|c s IH]; [reflexivity|].
  cbn [PyStr.replace_from map]. rewrite startswith_char.
  cbn [List.length Nat.pred app]. rewrite IH. destruct (c =? x); reflexivity.
Qed.

Lemma startswith_replace_back (old q : str) :
  ~ In 32 q ->
  forall s, PyStr.startswith (PyStr.replace_from old [32] s 0) q = true ->
            PyStr.startswith s q = true.
Proof.
  induction q as [|x q IH]; intros Hq s H; [destruct s; reflexivity|].
  destruct s as [|c s]; [discriminate|].
  cbn [PyStr.replace_from] in H. destruct (PyStr.startswith (c :: s) old).
  - cbn [app] in H. rewrite startswith_cons in H.
    apply andb_true_iff in H as [H _]. apply Z.eqb_eq in H.
    exfalso. apply Hq. left. symmetry. exact H.
  - rewrite startswith_cons in *. apply andb_true_iff in H as [Hc H]. rewrite Hc. cbn [andb].
    apply IH; [|exact H]. intros Hin. apply Hq. right. exact Hin.
Qed.

(** After the replacement by a space no occurrence is left. *)
Lemma contains_replace_false (x0 : Z) (old' : str) :
  ~ In 32 (x0 :: old') ->
  forall (s : str) (k : nat),
    PyStr.contains (PyStr.replace_from (x0 :: old') [32] s k) (x0 :: old') = false.
Proof.
  intros Hold. induction s as [|c s IH]; intros k; [reflexivity|].
  cbn [PyStr.replace_from]. destruct k; [|apply IH].
  destruct (PyStr.startswith (c :: s) (x0 :: old')) eqn:E.
  - cbn [app]. rewrite contains_cons, IH, orb_false_r, startswith_cons.
    destruct (Z.eqb_spec 32 x0) as [E0|_]; [|reflexivity].
    exfalso. apply Hold. left. symmetry. exact E0.
  - rewrite contains_cons, IH, orb_false_r.
    destruct (PyStr.startswith (c :: PyStr.replace_from (x0 :: old') [32] s 0) (x0 :: old'))
      eqn:E'; [|reflexivity].
    rewrite startswith_cons in E'. apply andb_true_iff in E' as [Hc E'].
    apply startswith_replace_back in E'; [|intros Hin; apply Hold; right; exact Hin].
    rewrite startswith_cons, Hc, E' in E. discriminate.
Qed.

Lemma startswith_map_back (f : Z -> Z) (pat : str) :
  (forall c x, In x pat -> f c = x -> c = x) ->
  forall s, PyStr.startswith (map f s) pat = true -> PyStr.startswith s pat = true.
Proof.
  induction pat as [|x pat IH]; intros Hf s H; [destruct s; reflexivity|].
  destruct s as [|c s]; [discriminate|].
  cbn [map] in H. rewrite startswith_cons in *.
  apply andb_true_iff in H as [Hc H]. apply Z.eqb_eq in Hc.
  apply (Hf c x (or_introl eq_refl)) in Hc. subst c. rewrite Z.eqb_refl. cbn [andb].
  apply IH; [|exact H]. intros c y Hin. apply Hf. right. exact Hin.
Qed.

Lemma contains_map_false (f : Z -> Z) (pat : str) :
  (forall c x, In x pat -> f c = x -> c = x) ->
  forall s, PyStr.contains s pat = false -> PyStr.contains (map f s) pat = false.
Proof.
  intros Hf. induction s as [|c s IH]; intros H; [exact H|].
  rewrite contains_cons in H. apply orb_false_iff in H as [H1 H2].
  cbn [map]. rewrite contains_cons, IH, orb_false_r by exact H2.
  destruct (PyStr.startswith (f c :: map f s) pat) eqn:E; [|reflexivity].
  apply (startswith_map_back f pat Hf (c :: s)) in E. congruence.
Qed.

(** *** Collapsing *)

Lemma collapse_Forall (P : Z -> Prop) (s : str) :
  Forall P s ->
  forall b, Forall (fun c => c = 32 \/ (P c /\ PyStr.is_space c = false))
              (Spec.collapse_from b s).
Proof.
  induction 1 as [|c s Hc Hs IH]; intros b; [constructor|].
  cbn [Spec.collapse_from]. destruct (PyStr.is_space c) eqn:E.
  - destruct b; [apply IH|]. constructor; [left; reflexivity|apply IH].
  - constructor; [right; split; assumption|apply IH].
Qed.

Lemma collapse_spaced (s : str) : forall b, spaced b (Spec.collapse_from b s).
Proof.
  induction s as [|c s IH]; intros b; [exact I|].
  cbn [Spec.collapse_from]. destruct (PyStr.is_space c) eqn:E.
  - destruct b; [apply IH|]. cbn [spaced]. split; [discriminate|].
    change (PyStr.is_space 32) with true. apply IH.
  - cbn [spaced]. rewrite E. split; [reflexivity|apply IH].
Qed.

(** Collapsing changes nothing when every whitespace character is a space
    and no two of them are adjacent. *)
Lemma collapse_fixed (s : str) :
  Forall (fun c => PyStr.is_space c = true -> c = 32) s ->
  forall b, spaced b s -> Spec.collapse_from b s = s.
Proof.
  induction 1 as [|c s Hc Hs IH]; intros b Hsp; [reflexivity|].
  cbn [spaced] in Hsp. destruct Hsp as [Hb Hsp].
  cbn [Spec.collapse_from]. destruct (PyStr.is_space c) eqn:E.
  - destruct b; [specialize (Hb eq_refl); discriminate|].
    rewrite (Hc eq_refl), IH by exact Hsp. reflexivity.
  - rewrite IH by exact Hsp. reflexivity.
Qed.

Lemma startswith_collapse_back (pat : str) :
  Forall (fun x => PyStr.is_space x = false) pat ->
  forall s, PyStr.startswith (Spec.collapse_from false s) pat = true ->
            PyStr.startswith s pat = true.
Proof.
  induction 1 as [|x pat Hx Hpat IH]; intros s H; [destruct s; reflexivity|].
  destruct s as [|c s]; [discriminate|].
  cbn [Spec.collapse_from] in H. destruct (PyStr.is_space c) eqn:E.
  - rewrite startswith_cons in H.
    apply andb_true_iff in H as [H _]. apply Z.eqb_eq in H. subst x.
    discriminate Hx.
  - rewrite startswith_cons in *. apply andb_true_iff in H as [Hc H].
    rewrite Hc. cbn [andb]. exact (IH _ H).
Qed.

Lemma contains_collapse_false (x0 : Z) (pat : str) :
  Forall (fun x => PyStr.is_space x = false) (x0 :: pat) ->
  forall s b, PyStr.contains s (x0 :: pat) = false ->
              PyStr.contains (Spec.collapse_from b s) (x0 :: pat) = false.
Proof.
  intros Hpat. inversion Hpat as [|? ? Hx0 Hpat']; subst.
  induction s as [|c s IH]; intros b H; [exact H|].
  rewrite contains_cons in H. apply orb_false_iff in H as [H1 H2].
  cbn [Spec.collapse_from]. destruct (PyStr.is_space c) eqn:E.
  - destruct b; [exact (IH _ H2)|].
    rewrite contains_cons, IH, orb_false_r, startswith_cons by exact H2.
    destruct (Z.eqb_spec 32 x0) as [E0|_]; [|reflexivity].
    subst x0. discriminate Hx0.
  - rewrite contains_cons, IH, orb_false_r by exact H2.
    destruct (PyStr.startswith (c :: Spec.collapse_from false s) (x0 :: pat)) eqn:E';
      [|reflexivity].
    rewrite startswith_cons in E'. apply andb_true_iff in E' as [Hc E'].
    apply (startswith_collapse_back pat Hpat') in E'.
    rewrite startswith_cons, Hc, E' in H1. discriminate.
Qed.

(** *** The sanitized text *)

Lemma printable_range (c : Z) : 32 <= c <= 126 -> is_printable c = true.
Proof.
  intros H. unfold is_printable. apply orb_true_iff. left.
  apply andb_true_iff. split; apply Z.leb_le; lia.
Qed.

Lemma printable_cases (c : Z) :
  is_printable c = true -> 32 <= c <= 126 \/ c = 9 \/ c = 13 \/ c = 10.
Proof.
  unfold is_printable. rewrite contains_singleton. cbn [existsb].
  rewrite !orb_true_iff, andb_true_iff, !Z.leb_le, !Z.eqb_eq. lia.
Qed.

Lemma space_in_range (c : Z) : 32 <= c <= 126 -> PyStr.is_space c = true -> c = 32.
Proof.
  intros Hr. unfold PyStr.is_space.
  rewrite !orb_true_iff, !andb_true_iff, !Z.leb_le, !Z.eqb_eq. lia.
Qed.

Lemma printable_other_range (c : Z) :
  is_printable c = true -> PyStr.is_space c = false -> 32 <= c <= 126.
Proof.
  intros Hp Hs. destruct (printable_cases c Hp) as [H|[H|[H|H]]];
    [exact H|subst c; discriminate Hs..].
Qed.

Lemma filter_all (f : Z -> bool) (s : str) :
  Forall (fun c => f c = true) s -> filter f s = s.
Proof. induction 1 as [|c s Hc Hs IH]; cbn; [|rewrite Hc, IH]; reflexivity. Qed.

Lemma filter_Forall (f : Z -> bool) (s : str) : Forall (fun c => f c = true) (filter f s).
Proof. apply Forall_forall. intros c H. apply filter_In in H. tauto. Qed.

Lemma sanitize_text_unfold (combined : str) :
  sanitize_text combined = PyStr.strip (Spec.collapse (before_collapse combined)).
Proof. unfold sanitize_text. rewrite sub_ws_collapse. reflexivity. Qed.

Lemma before_collapse_printable (combined : str) :
  Forall (fun c => is_printable c = true) (before_collapse combined).
Proof.
  unfold before_collapse, PyStr.replace.
  repeat (apply replace_Forall; [repeat constructor|]).
  apply filter_Forall.
Qed.

Lemma en_US_kept (x : Z) : forall c y, In y en_US -> (if c =? x then 32 else c) = y -> c = y.
Proof.
  intros c y Hin. destruct (c =? x); [|auto].
  intros <-. vm_compute in Hin. intuition discriminate.
Qed.

Lemma before_collapse_no_marker (combined : str) :
  PyStr.contains (before_collapse combined) en_US = false.
Proof.
  unfold before_collapse. change (pystr " ") with [32].
  rewrite !replace_char.
  do 2 (apply contains_map_false; [apply en_US_kept|]).
  apply (contains_replace_false 101 [110; 45; 85; 83]).
  vm_compute. intuition discriminate.
Qed.

(** The sanitized text is printable ASCII without tab, CR and LF. *)
Lemma sanitize_text_printable (combined : str) :
  Forall (fun c => 32 <= c <= 126) (sanitize_text combined).
Proof.
  rewrite sanitize_text_unfold. apply Forall_strip.
  eapply Forall_impl;
    [|exact (collapse_Forall _ _ (before_collapse_printable combined) false)].
  intros c [->|[Hp Hs]]; [lia|exact (printable_other_range c Hp Hs)].
Qed.

Lemma sanitize_text_no_marker (combined : str) :
  PyStr.contains (sanitize_text combined) en_US = false.
Proof.
  rewrite sanitize_text_unfold. apply contains_strip; [discriminate|].
  apply (contains_collapse_false 101 [110; 45; 85; 83]);
    [repeat constructor|apply before_collapse_no_marker].
Qed.

Lemma sanitize_text_spaced (combined : str) : spaced false (sanitize_text combined).
Proof.
  rewrite sanitize_text_unfold. apply (spaced_strip false). apply collapse_spaced.
Qed.

(** C9: sanitizing is idempotent.  The sanitized text is printable ASCII
    without the locale marker, with single spaces only and none at either
    end, and every step of the sanitizer leaves such a text unchanged. *)
Theorem sanitize_text_idempotent :
  forall combined : str,
    sanitize_text (sanitize_text combined) = sanitize_text combined.
Proof.
  intros combined.
  pose proof (sanitize_text_printable combined) as Hp.
  pose proof (sanitize_text_no_marker combined) as Hm.
  pose proof (sanitize_text_spaced combined) as Hs.
  rewrite (sanitize_text_unfold (sanitize_text combined)).
  assert (Hb : before_collapse (sanitize_text combined) = sanitize_text combined).
  { unfold before_collapse.
    rewrite filter_all
      by (eapply Forall_impl; [|exact Hp]; intros c Hc; exact (printable_range c Hc)).
    rewrite (replace_absent en_US) by exact Hm.
    assert (Hno : forall x, ~ 32 <= x <= 126 ->
                        PyStr.contains (sanitize_text combined) [x] = false).
    { intros x Hx. apply contains_char_false. intros Hin.
      rewrite Forall_forall in Hp. exact (Hx (Hp _ Hin)). }
    rewrite (replace_absent [13]) by (apply Hno; lia).
    rewrite (replace_absent [10]) by (apply Hno; lia).
    reflexivity. }
  rewrite Hb. unfold Spec.collapse. rewrite collapse_fixed.
  - rewrite sanitize_text_unfold. apply strip_idempotent.
  - eapply Forall_impl; [|exact Hp]. intros c Hc. exact (space_in_range c Hc).
  - exact Hs.
Qed.

End SanitizerFacts.

(** * Further properties of the code *)

Section RegexFacts.
Import Re.

Lemma rep_greedy_reaches (t : Z -> bool) (k : nat -> option Z -> str -> option cursor)
  (x : cursor) (rs : str) :
  forall (lo : nat) (hi : option nat) (p : nat) (pv : option Z),
    rep_greedy t lo hi p pv rs k = Some x ->
    exists n pv',
      k (p + n)%nat pv' (skipn n rs) = Some x
      /\ (lo <= n <= List.length rs)%nat
      /\ Forall (fun c => t c = true) (firstn n rs).
Proof.
  induction rs as [|c rs IH]; intros lo hi p pv H; cbn [rep_greedy] in H.
  - destruct (Nat.eqb_spec lo 0); [|discriminate].
    exists 0%nat, pv. rewrite Nat.add_0_r. cbn. (repeat split); try lia; try (constructor; fail); exact H.
  - assert (Hstop : (if Nat.eqb lo 0 then k p pv (c :: rs) else None) = Some x ->
                    exists n pv',
                      k (p + n)%nat pv' (skipn n (c :: rs)) = Some x
                      /\ (lo <= n <= List.length (c :: rs))%nat
                      /\ Forall (fun c => t c = true) (firstn n (c :: rs))).
    { intros Hs. destruct (Nat.eqb_spec lo 0); [|discriminate].
      exists 0%nat, pv. rewrite Nat.add_0_r. cbn.
      (repeat split); try lia; try (constructor; fail); exact Hs. }
    destruct (t c && can_take hi) eqn:E; [|exact (Hstop H)].
    destruct (rep_greedy t (Nat.pred lo) (option_map Nat.pred hi) (S p) (Some c) rs k)
      as [r|] eqn:Er; [|exact (Hstop H)].
    injection H as ->. destruct (IH _ _ _ _ Er) as (n & pv' & Hk & Hn & Hall).
    exists (S n), pv'. apply andb_true_iff in E as [Ec _].
    replace (p + S n)%nat with (S p + n)%nat by lia. cbn [skipn firstn List.length].
    (repeat split); try lia; try (constructor; assumption); exact Hk.
Qed.

Lemma rep_lazy_reaches (t : Z -> bool) (k : nat -> option Z -> str -> option cursor)
  (x : cursor) (rs : str) :
  forall (lo : nat) (hi : option nat) (p : nat) (pv : option Z),
    rep_lazy t lo hi p pv rs k = Some x ->
    exists n pv',
      k (p + n)%nat pv' (skipn n rs) = Some x
      /\ (lo <= n <= List.length rs)%nat
      /\ Forall (fun c => t c = true) (firstn n rs).
Proof.
  induction rs as [|c rs IH]; intros lo hi p pv H; cbn [rep_lazy] in H.
  - destruct (Nat.eqb_spec lo 0); [|discriminate].
    destruct (k p pv []) eqn:Ek; [|discriminate]. injection H as ->.
    exists 0%nat, pv. rewrite Nat.add_0_r. cbn. (repeat split); try lia; try (constructor; fail); exact Ek.
  - destruct (if Nat.eqb lo 0 then k p pv (c :: rs) else None) as [r|] eqn:Es.
    + injection H as ->. destruct (Nat.eqb_spec lo 0); [|discriminate].
      exists 0%nat, pv. rewrite Nat.add_0_r. cbn.
      (repeat split); try lia; try (constructor; fail); exact Es.
    + destruct (t c && can_take hi) eqn:E; [|discriminate].
      destruct (IH _ _ _ _ H) as (n & pv' & Hk & Hn & Hall).
      exists (S n), pv'. apply andb_true_iff in E as [Ec _].
      replace (p + S n)%nat with (S p + n)%nat by lia. cbn [skipn firstn List.length].
      (repeat split); try lia; try (constructor; assumption); exact Hk.
Qed.

Lemma advances_refl (c : cursor) : advances c c [].
Proof. split; [reflexivity|cbn; lia]. Qed.

Lemma advances_trans (a b c : cursor) (t1 t2 : str) :
  advances a b t1 -> advances b c t2 -> advances a c (t1 ++ t2).
Proof.
  intros [E1 P1] [E2 P2]. split.
  - rewrite E1, E2, app_assoc. reflexivity.
  - rewrite P2, P1, length_app. lia.
Qed.

Lemma firstn_skipn_split (n : nat) (rs : str) : rs = firstn n rs ++ skipn n rs.
Proof. symmetry. apply firstn_skipn. Qed.

(** A successful match has called its continuation at a cursor reached by
    consuming a prefix of the remaining text; a pattern without groups
    hands the captures on unchanged. *)
Lemma rmatch_reaches (fl : flags) (r : regex) :
  forall (c : cursor) (k : cursor -> option cursor) (x : cursor),
    rmatch fl r c k = Some x ->
    exists c' taken,
      k c' = Some x /\ advances c c' taken
      /\ (groupfree r = true -> caps c' = caps c).
Proof.
  induction r as [|cl|r1 IH1 r2 IH2|r1 IH1 r2 IH2|g lo hi cl|n r1 IH1|r1 IH1|cl| |];
    intros c k x H; cbn [rmatch] in H.
  - exists c, []. split; [exact H|split; [apply advances_refl|reflexivity]].
  - destruct (rest c) as [|ch0 rs'] eqn:Er; [discriminate|].
    destruct (cls_test fl cl ch0); [|discriminate].
    eexists _, [ch0]. split; [exact H|]. split; [|reflexivity].
    split; cbn; [exact Er|lia].
  - destruct (IH1 _ _ _ H) as (c1 & t1 & H1 & A1 & G1).
    destruct (IH2 _ _ _ H1) as (c2 & t2 & H2 & A2 & G2).
    exists c2, (t1 ++ t2). split; [exact H2|]. split; [exact (advances_trans _ _ _ _ _ A1 A2)|].
    cbn [groupfree]. intros G. apply andb_true_iff in G as [Ga Gb].
    rewrite (G2 Gb), (G1 Ga). reflexivity.
  - cbn [groupfree].
    destruct (rmatch fl r1 c k) as [y|] eqn:E1.
    + injection H as ->. destruct (IH1 _ _ _ E1) as (c1 & t1 & H1 & A1 & G1).
      exists c1, t1. split; [exact H1|split; [exact A1|]].
      intros G. apply andb_true_iff in G as [Ga _]. exact (G1 Ga).
    + destruct (IH2 _ _ _ H) as (c2 & t2 & H2 & A2 & G2).
      exists c2, t2. split; [exact H2|split; [exact A2|]].
      intros G. apply andb_true_iff in G as [_ Gb]. exact (G2 Gb).
  - assert (Hr : exists n pv',
               k {| pos := (pos c + n)%nat; prev := pv'; rest := skipn n (rest c);
                    caps := caps c |} = Some x
               /\ (lo <= n <= List.length (rest c))%nat
               /\ Forall (fun a => cls_test fl cl a = true) (firstn n (rest c))).
    { destruct g; [apply rep_greedy_reaches in H|apply rep_lazy_reaches in H]; exact H. }
    destruct Hr as (n & pv' & Hk & Hn & _).
    eexists _, (firstn n (rest c)). split; [exact Hk|]. split; [|reflexivity].
    split; cbn [rest pos]; [apply firstn_skipn_split|rewrite length_firstn; lia].
  - destruct (IH1 _ _ _ H) as (c1 & t1 & H1 & A1 & _).
    eexists _, t1. split; [exact H1|]. split; [|discriminate].
    destruct A1 as [E P]. split; cbn [rest pos]; assumption.
  - destruct (rmatch fl r1 c Some) as [c1|] eqn:E1; [|discriminate].
    destruct (IH1 _ _ _ E1) as (c2 & t2 & H2 & _ & G2). injection H2 as ->.
    eexists _, []. split; [exact H|]. split; [split; cbn; [reflexivity|lia]|].
    cbn [groupfree caps]. exact G2.
  - destruct (prev c) as [ch0|]; [|discriminate].
    destruct (cls_test fl cl ch0); [|discriminate].
    exists c, []. split; [exact H|split; [apply advances_refl|reflexivity]].
  - destruct (xorb _ _); [|discriminate].
    exists c, []. split; [exact H|split; [apply advances_refl|reflexivity]].
  - assert (Hk : k c = Some x).
    { destruct (rest c) as [|a l]; [exact H|].
      destruct a as [|q|q]; try discriminate.
      repeat (destruct q as [q|q|]; try discriminate).
      destruct l; [exact H|discriminate]. }
    exists c, []. split; [exact Hk|split; [apply advances_refl|reflexivity]].
Qed.

Lemma match_here_some (fl : flags) (r : regex) (p : nat) (pv : option Z) (rs : str)
  (adv : bool) (m : rematch) :
  match_here fl r p pv rs adv = Some m ->
  exists x,
    rmatch fl r {| pos := p; prev := pv; rest := rs; caps := [] |}
      (fun c => if adv && Nat.eqb (pos c) p then None else Some c) = Some x
    /\ m = {| m_start := p; m_end := pos x; m_caps := caps x |}.
Proof.
  unfold match_here. destruct (rmatch _ _ _ _) as [x|]; [|discriminate].
  intros H. injection H as <-. exists x. split; reflexivity.
Qed.

(** No match anywhere in a text all of whose suffixes refuse the pattern. *)
Lemma finditer_none (fl : flags) (r : regex) (Q : str -> Prop) :
  (forall c rs, Q (c :: rs) -> Q rs) ->
  (forall p pv rs adv, Q rs -> match_here fl r p pv rs adv = None) ->
  forall (rs : str) (p : nat) (pv : option Z) (k : nat),
    Q rs -> finditer_from fl r p pv rs k = [].
Proof.
  intros Qtail Hnone. induction rs as [|c rs IH]; intros p pv k HQ.
  - destruct k; cbn [finditer_from]; [|reflexivity]. rewrite Hnone by exact HQ. reflexivity.
  - destruct k; cbn [finditer_from].
    + rewrite Hnone by exact HQ. apply IH. exact (Qtail _ _ HQ).
    + apply IH. exact (Qtail _ _ HQ).
Qed.

Lemma search_none (fl : flags) (r : regex) (Q : str -> Prop) :
  (forall c rs, Q (c :: rs) -> Q rs) ->
  (forall p pv rs adv, Q rs -> match_here fl r p pv rs adv = None) ->
  forall (rs : str) (p : nat) (pv : option Z),
    Q rs -> search_from fl r p pv rs = None.
Proof.
  intros Qtail Hnone. induction rs as [|c rs IH]; intros p pv HQ; cbn [search_from];
    rewrite Hnone by exact HQ; [reflexivity|]. apply IH. exact (Qtail _ _ HQ).
Qed.

(** A literal word matches only where the text starts with it. *)
Lemma rmatch_word (fl : flags) (w : str) :
  ignorecase fl = false ->
  forall (c : cursor) (k : cursor -> option cursor) (x : cursor),
    rmatch fl (fold_right (fun a r => Cat (One (Lit a)) r) Eps w) c k = Some x ->
    PyStr.startswith (rest c) w = true.
Proof.
  intros Hfl. induction w as [|a w IH]; intros c k x H.
  - destruct (rest c); reflexivity.
  - cbn [fold_right rmatch] in H.
    destruct (rest c) as [|ch0 rs'] eqn:Er; [discriminate|].
    cbn [cls_test] in H. rewrite Hfl in H.
    destruct (Z.eqb_spec ch0 a) as [->|]; [|discriminate].
    apply IH in H. cbn [rest] in H.
    rewrite startswith_cons, Z.eqb_refl. exact H.
Qed.

(** One character of a class matches only a text that starts with one. *)
Lemma rmatch_one (fl : flags) (cl : cls) (c : cursor) (k : cursor -> option cursor)
  (x : cursor) :
  rmatch fl (One cl) c k = Some x ->
  exists a rs', rest c = a :: rs' /\ cls_test fl cl a = true.
Proof.
  cbn [rmatch]. destruct (rest c) as [|a rs']; [discriminate|].
  destruct (cls_test fl cl a) eqn:E; [|discriminate].
  intros _. exists a, rs'. split; [reflexivity|exact E].
Qed.

(** A repetition with a positive lower bound matches only a text that
    starts with a character of the class. *)
Lemma rmatch_rep_head (fl : flags) (g : bool) (lo : nat) (hi : option nat) (cl : cls)
  (c : cursor) (k : cursor -> option cursor) (x : cursor) :
  rmatch fl (Rep g (S lo) hi cl) c k = Some x ->
  exists a rs', rest c = a :: rs' /\ cls_test fl cl a = true.
Proof.
  cbn [rmatch]. intros H.
  assert (Hr : exists n : nat,
               (S lo <= n <= List.length (rest c))%nat
               /\ Forall (fun a => cls_test fl cl a = true) (firstn n (rest c))).
  { destruct g; [apply rep_greedy_reaches in H|apply rep_lazy_reaches in H];
      destruct H as (n & _ & _ & Hn & Hall); exists n; split; assumption. }
  destruct Hr as (n & Hn & Hall).
  destruct n; [lia|]. destruct (rest c) as [|a rs']; [cbn in Hn; lia|].
  cbn [firstn] in Hall. inversion Hall; subst. exists a, rs'. split; [reflexivity|assumption].
Qed.

Lemma advances_Forall (P : Z -> Prop) (c c' : cursor) (taken : str) :
  advances c c' taken -> Forall P (rest c) -> Forall P (rest c').
Proof. intros [E _] H. rewrite E in H. apply Forall_app in H. tauto. Qed.

Lemma splice_nil (repl s : str) (p : nat) : splice repl s p [] = s.
Proof. reflexivity. Qed.

End RegexFacts.

Section RegexFailure.
Import Re.

Variable fl : flags.
Variable Q : str -> Prop.
Hypothesis Q_suffix : forall l s, Q (l ++ s) -> Q s.

Lemma Q_advances (c c' : cursor) (taken : str) :
  advances c c' taken -> Q (rest c) -> Q (rest c').
Proof. intros [E _] H. rewrite E in H. exact (Q_suffix _ _ H). Qed.

Lemma cat_none (a b : regex) :
  (forall c k, Q (rest c) -> rmatch fl b c k = None) ->
  forall c k, Q (rest c) -> rmatch fl (Cat a b) c k = None.
Proof.
  intros Hb c k HQ. destruct (rmatch fl (Cat a b) c k) as [x|] eqn:E; [|reflexivity].
  cbn [rmatch] in E. apply rmatch_reaches in E as (c' & t & E & A & _).
  rewrite Hb in E by exact (Q_advances _ _ _ A HQ). discriminate.
Qed.

Lemma cat_none_l (a b : regex) :
  (forall c k, Q (rest c) -> rmatch fl a c k = None) ->
  forall c k, Q (rest c) -> rmatch fl (Cat a b) c k = None.
Proof. intros Ha c k HQ. cbn [rmatch]. apply Ha. exact HQ. Qed.

Lemma grp_none (n : nat) (a : regex) :
  (forall c k, Q (rest c) -> rmatch fl a c k = None) ->
  forall c k, Q (rest c) -> rmatch fl (Grp n a) c k = None.
Proof. intros Ha c k HQ. cbn [rmatch]. apply Ha. exact HQ. Qed.

Lemma one_none (cl : cls) :
  (forall a rs, Q (a :: rs) -> cls_test fl cl a = false) ->
  forall c k, Q (rest c) -> rmatch fl (One cl) c k = None.
Proof.
  intros Hcl c k HQ. destruct (rmatch fl (One cl) c k) as [x|] eqn:E; [|reflexivity].
  apply rmatch_one in E as (a & rs' & Er & Ea). rewrite Er in HQ.
  rewrite (Hcl _ _ HQ) in Ea. discriminate.
Qed.

Lemma rep_none (g : bool) (lo : nat) (hi : option nat) (cl : cls) :
  (forall a rs, Q (a :: rs) -> cls_test fl cl a = false) ->
  forall c k, Q (rest c) -> rmatch fl (Rep g (S lo) hi cl) c k = None.
Proof.
  intros Hcl c k HQ.
  destruct (rmatch fl (Rep g (S lo) hi cl) c k) as [x|] eqn:E; [|reflexivity].
  apply rmatch_rep_head in E as (a & rs' & Er & Ea). rewrite Er in HQ.
  rewrite (Hcl _ _ HQ) in Ea. discriminate.
Qed.

Lemma word_none (w : string) :
  ignorecase fl = false ->
  (forall rs, Q rs -> PyStr.startswith rs (pystr w) = false) ->
  forall c k, Q (rest c) -> rmatch fl (lit w) c k = None.
Proof.
  intros Hfl Hw c k HQ. destruct (rmatch fl (lit w) c k) as [x|] eqn:E; [|reflexivity].
  unfold lit in E. apply (rmatch_word fl _ Hfl) in E.
  rewrite (Hw _ HQ) in E. discriminate.
Qed.

Lemma match_here_none (r : regex) :
  (forall c k, Q (rest c) -> rmatch fl r c k = None) ->
  forall p pv rs adv, Q rs -> match_here fl r p pv rs adv = None.
Proof.
  intros Hr p pv rs adv HQ. unfold match_here. rewrite Hr by exact HQ. reflexivity.
Qed.

Lemma Q_tail (c : Z) (rs : str) : Q (c :: rs) -> Q rs.
Proof. exact (Q_suffix [c] rs). Qed.

Lemma finditer_refused (r : regex) (s : str) :
  (forall c k, Q (rest c) -> rmatch fl r c k = None) ->
  Q s -> finditer fl r s = [].
Proof.
  intros Hr HQ. unfold finditer.
  apply (finditer_none fl r Q Q_tail (match_here_none r Hr)). exact HQ.
Qed.

Lemma search_refused (r : regex) (s : str) :
  (forall c k, Q (rest c) -> rmatch fl r c k = None) ->
  Q s -> search fl r s = None.
Proof.
  intros Hr HQ. unfold search.
  apply (search_none fl r Q Q_tail (match_here_none r Hr)). exact HQ.
Qed.

End RegexFailure.

Section ScannerFacts.

Lemma contains_startswith_false (rs w : str) :
  PyStr.contains rs w = false -> PyStr.startswith rs w = false.
Proof.
  destruct rs as [|c rs]; [auto|]. rewrite contains_cons. intros H.
  apply orb_false_iff in H. tauto.
Qed.

(** A buffer in which the word endstream does not occur has no stream. *)
Lemma raw_streams_none (data : str) :
  PyStr.contains data (pystr "endstream") = false -> raw_streams data = [].
Proof.
  intros H. unfold raw_streams.
  rewrite (finditer_refused STREAM_FLAGS
             (fun rs => PyStr.contains rs (pystr "endstream") = false)); [reflexivity| | |exact H].
  - intros l s. apply contains_suffix.
  - unfold STREAM_PATTERN, Re.seq.
    set (Qs := fun rs => PyStr.contains rs (pystr "endstream") = false).
    assert (Qsuf : forall l s, Qs (l ++ s) -> Qs s) by (intros l s; apply contains_suffix).
    do 6 (apply (cat_none STREAM_FLAGS Qs Qsuf)).
    apply (word_none STREAM_FLAGS Qs); [reflexivity|].
    intros rs. apply contains_startswith_false.
Qed.

(** X15: a buffer in which the word endstream does not occur has no
    stream: the scanner finds nothing to decompress. *)
Theorem raw_streams_without_endstream :
  forall data : str,
    PyStr.contains data (pystr "endstream") = false -> raw_streams data = [].
Proof. exact raw_streams_none. Qed.

Lemma raw_streams_without_endstream_witness :
  raw_streams (pystr "%PDF-1.4 stream without an end") = [].
Proof. apply raw_streams_without_endstream. vm_compute. reflexivity. Defined.

End ScannerFacts.

Section DigitFree.

Lemma no_digit_suffix (l s : str) : no_digit (l ++ s) -> no_digit s.
Proof. intros H. apply Forall_app in H. tauto. Qed.

Lemma no_digit_head (fl : Re.flags) (a : Z) (rs : str) :
  no_digit (a :: rs) -> Re.cls_test fl Re.Digit a = false.
Proof. intros H. inversion H; subst. assumption. Qed.

Lemma round_pattern_needs_digit (c : Re.cursor) (k : Re.cursor -> option Re.cursor) :
  no_digit (Re.rest c) -> Re.rmatch ROUND_FLAGS round_pattern c k = None.
Proof.
  revert c k. unfold round_pattern, round_head, Re.seq.
  apply (cat_none_l ROUND_FLAGS no_digit), (grp_none ROUND_FLAGS no_digit).
  apply (cat_none_l ROUND_FLAGS no_digit).
  do 2 apply (cat_none ROUND_FLAGS no_digit no_digit_suffix).
  apply (cat_none_l ROUND_FLAGS no_digit).
  apply (rep_none ROUND_FLAGS no_digit). apply no_digit_head.
Qed.

Lemma question_start_needs_digit (c : Re.cursor) (k : Re.cursor -> option Re.cursor) :
  no_digit (Re.rest c) -> Re.rmatch Re.no_flags question_start_pattern c k = None.
Proof.
  revert c k. unfold question_start_pattern, Re.seq.
  apply (cat_none Re.no_flags no_digit no_digit_suffix).
  apply (cat_none_l Re.no_flags no_digit).
  apply (rep_none Re.no_flags no_digit). apply no_digit_head.
Qed.

Lemma question_pattern_needs_digit (c : Re.cursor) (k : Re.cursor -> option Re.cursor) :
  no_digit (Re.rest c) -> Re.rmatch QUESTION_FLAGS question_pattern c k = None.
Proof.
  revert c k. unfold question_pattern, Re.seq.
  apply (cat_none_l QUESTION_FLAGS no_digit), (grp_none QUESTION_FLAGS no_digit).
  apply (rep_none QUESTION_FLAGS no_digit). apply no_digit_head.
Qed.

Lemma Forall_span (P : Z -> Prop) (s : str) (a b : nat) :
  Forall P s -> Forall P (Re.span s a b).
Proof.
  intros H. unfold Re.span.
  rewrite <- (firstn_skipn a s) in H. apply Forall_app in H as [_ H].
  rewrite <- (firstn_skipn (b - a) (skipn a s)) in H. apply Forall_app in H. tauto.
Qed.

Lemma no_digit_span (s : str) (a b : nat) : no_digit s -> no_digit (Re.span s a b).
Proof. apply Forall_span. Qed.

Lemma no_digit_group (s : str) (m : Re.rematch) (n : nat) :
  no_digit s -> no_digit (Re.group s m n).
Proof.
  intros H. unfold Re.group.
  destruct (find _ _) as [[? [a b]]|]; [apply no_digit_span; exact H|constructor].
Qed.

(** A body without a decimal digit has no entry. *)
Lemma parse_questions_no_digit (body : str) : no_digit body -> _parse_questions body = [].
Proof.
  intros H. unfold _parse_questions, Re.findall2.
  rewrite (finditer_refused QUESTION_FLAGS no_digit no_digit_suffix _ _
             question_pattern_needs_digit H).
  reflexivity.
Qed.

(** A document without a decimal digit has no round. *)
Lemma parse_rounds_no_digit (text : str) : no_digit text -> parse_rounds text = [].
Proof.
  intros H. unfold parse_rounds.
  rewrite (finditer_refused ROUND_FLAGS no_digit no_digit_suffix _ _
             round_pattern_needs_digit H).
  cbn [rounds_loop]. unfold tiebreakers.
  destruct (Re.search ROUND_FLAGS tiebreakers_pattern text) as [tb|]; [|reflexivity].
  rewrite (search_refused Re.no_flags no_digit no_digit_suffix _ _
             question_start_needs_digit); [reflexivity|].
  apply Forall_strip, no_digit_group. exact H.
Qed.

(** X14: a text of code points below 256 without any of the digits 0 to 9
    gives no entry as a round body and no round as a document: every round
    and every question needs a number. *)
Theorem parse_rounds_without_digits :
  forall text : str,
    Forall latin1 text -> no_digit text ->
    _parse_questions text = [] /\ parse_rounds text = [].
Proof.
  intros text _ H. split; [exact (parse_questions_no_digit text H)|].
  exact (parse_rounds_no_digit text H).
Qed.

Lemma parse_rounds_without_digits_witness :
  _parse_questions (pystr "Round one: no numbers here") = []
  /\ parse_rounds (pystr "Round one: no numbers here") = [].
Proof.
  apply parse_rounds_without_digits.
  - repeat constructor; vm_compute; congruence.
  - repeat constructor.
Defined.

End DigitFree.

Section CleanAnswerFacts.

Lemma without_suffix (x : Z) (l s : str) : without x (l ++ s) -> without x s.
Proof. intros H. apply Forall_app in H. tauto. Qed.

Lemma without_head (x a : Z) (rs : str) : without x (a :: rs) -> (a =? x) = false.
Proof. intros H. inversion H; subst. apply Z.eqb_neq. assumption. Qed.

Lemma ci_eq_bar (a : Z) : a <> 124 -> Re.ci_eq 124 a = false.
Proof.
  intros H. unfold Re.ci_eq. change (Re.lower 124) with 124. cbn [Z.eqb andb orb].
  rewrite !orb_false_r. unfold Re.lower.
  destruct ((65 <=? a) && (a <=? 90)) eqn:E; apply Z.eqb_neq; [|exact H].
  apply andb_true_iff in E as [_ E]. apply Z.leb_le in E. lia.
Qed.

Lemma note_pattern_needs_bar (c : Re.cursor) (k : Re.cursor -> option Re.cursor) :
  without 124 (Re.rest c) -> Re.rmatch NOTE_FLAGS NOTE_PATTERN c k = None.
Proof.
  revert c k. unfold NOTE_PATTERN, Re.seq.
  apply (cat_none_l NOTE_FLAGS (without 124)), (one_none NOTE_FLAGS (without 124)).
  intros a rs H. inversion H; subst. apply ci_eq_bar. assumption.
Qed.

Lemma separator_pattern_needs_it (x : Z) (c : Re.cursor) (k : Re.cursor -> option Re.cursor) :
  without x (Re.rest c) ->
  Re.rmatch Re.no_flags (Re.seq [Re.star Re.Space; Re.One (Re.Lit x); Re.star Re.Space]) c k
  = None.
Proof.
  revert c k. unfold Re.seq.
  apply (cat_none Re.no_flags (without x) (without_suffix x)).
  apply (cat_none_l Re.no_flags (without x)), (one_none Re.no_flags (without x)).
  intros a rs. apply without_head.
Qed.

Lemma digit_comma_needs_comma (c : Re.cursor) (k : Re.cursor -> option Re.cursor) :
  without 44 (Re.rest c) -> Re.rmatch Re.no_flags digit_comma_pattern c k = None.
Proof.
  revert c k. unfold digit_comma_pattern, Re.seq.
  apply (cat_none Re.no_flags (without 44) (without_suffix 44)).
  apply (cat_none_l Re.no_flags (without 44)).
  apply (word_none Re.no_flags (without 44)); [reflexivity|].
  intros [|a rs] H; [reflexivity|].
  change (pystr ", ") with [44; 32]. rewrite startswith_cons, (without_head _ _ _ H).
  reflexivity.
Qed.

Lemma spaces_pattern_needs_run (c : Re.cursor) (k : Re.cursor -> option Re.cursor) :
  spaced false (Re.rest c) -> Re.rmatch Re.no_flags spaces_pattern c k = None.
Proof.
  intros H. destruct (Re.rmatch Re.no_flags spaces_pattern c k) as [x|] eqn:E; [|reflexivity].
  unfold spaces_pattern in E. cbn [Re.rmatch] in E.
  apply rep_greedy_reaches in E as (n & _ & _ & Hn & Hall).
  destruct (Re.rest c) as [|a [|b rs]]; cbn [List.length] in Hn; try lia.
  destruct n as [|[|n]]; try lia. cbn [firstn] in Hall.
  inversion Hall as [|? ? Ha Hall']; subst. inversion Hall' as [|? ? Hb _]; subst.
  cbn [Re.cls_test] in Ha, Hb. cbn [spaced] in H. destruct H as (_ & H & _).
  rewrite (H Ha) in Hb. discriminate.
Qed.

Lemma sub_refused (fl : Re.flags) (r : Re.regex) (repl s : str) :
  Re.finditer fl r s = [] -> Re.sub fl r repl s = s.
Proof. unfold Re.sub. intros ->. reflexivity. Qed.

Lemma dropwhile_stops (t : Z -> bool) (s : str) :
  Forall (fun a => t a = false) s -> PyStr.dropwhile t s = s.
Proof. intros H. destruct H as [|a s Ha _]; [reflexivity|]. cbn. rewrite Ha. reflexivity. Qed.

(** X10: [clean_answer] leaves a tidy answer as it is: one that is trimmed, has
    no two adjacent whitespace characters and no bar, slash or comma. *)
Theorem clean_answer_fixed (answer : str) :
  PyStr.strip answer = answer ->
  spaced false answer ->
  without (ch "|") answer -> without (ch "/") answer -> without (ch ",") answer ->
  clean_answer answer = answer.
Proof.
  intros Hs Hsp Hbar Hslash Hcomma. unfold clean_answer.
  rewrite Hs. unfold Re.split.
  rewrite (finditer_refused NOTE_FLAGS (without 124) (without_suffix 124) _ _
             note_pattern_needs_bar Hbar).
  cbn [Re.between hd].
  assert (Hr : PyStr.rstrip_chars (pystr "|") answer = answer).
  { unfold PyStr.rstrip_chars. rewrite dropwhile_stops; [apply rev_involutive|].
    apply Forall_rev. eapply Forall_impl; [|exact Hbar].
    intros a Ha. cbn. rewrite orb_false_r. apply Z.eqb_neq. exact Ha. }
  rewrite Hr, Hs.
  rewrite (sub_refused _ slash_pattern)
    by exact (finditer_refused Re.no_flags (without 47) (without_suffix 47) _ _
                (separator_pattern_needs_it 47) Hslash).
  rewrite (sub_refused _ comma_pattern)
    by exact (finditer_refused Re.no_flags (without 44) (without_suffix 44) _ _
                (separator_pattern_needs_it 44) Hcomma).
  rewrite (sub_refused _ digit_comma_pattern)
    by exact (finditer_refused Re.no_flags (without 44) (without_suffix 44) _ _
                digit_comma_needs_comma Hcomma).
  rewrite (sub_refused _ spaces_pattern)
    by exact (finditer_refused Re.no_flags (spaced false) (fun l s => spaced_suffix l s false) _ _
                spaces_pattern_needs_run Hsp).
  exact Hs.
Qed.

Lemma clean_answer_fixed_witness :
  clean_answer (pystr "New York City!") = pystr "New York City!".
Proof.
  apply clean_answer_fixed; try (vm_compute; reflexivity);
    try (repeat constructor; discriminate).
Defined.


End CleanAnswerFacts.

Section NumberFacts.
Import Re.

(** Every match found in [s] is the result of one attempt at a position of [s]. *)
Lemma finditer_In (fl : flags) (r : regex) (s : str) (m : rematch) :
  forall (rs : str) (p : nat) (pv : option Z) (k : nat),
    rs = skipn p s ->
    In m (finditer_from fl r p pv rs k) ->
    exists p' pv' adv, match_here fl r p' pv' (skipn p' s) adv = Some m.
Proof.
  induction rs as [|c rs IH]; intros p pv k Hrs Hin.
  - destruct k; cbn [finditer_from] in Hin; [|contradiction].
    destruct (match_here fl r p pv [] false) as [m1|] eqn:E1; [|contradiction].
    destruct (Nat.eqb (m_end m1) p).
    + destruct Hin as [<-|Hin]; [exists p, pv, false; rewrite <- Hrs; exact E1|].
      destruct (match_here fl r p pv [] true) as [m2|] eqn:E2; [|contradiction].
      destruct Hin as [<-|[]]. exists p, pv, true. rewrite <- Hrs. exact E2.
    + destruct Hin as [<-|[]]. exists p, pv, false. rewrite <- Hrs. exact E1.
  - assert (Hnext : forall n, In m (finditer_from fl r (S p) (Some c) rs n) ->
                      exists p' pv' adv, match_here fl r p' pv' (skipn p' s) adv = Some m).
    { intros n. apply IH. symmetry in Hrs.
      destruct (skipn_head_nth _ _ _ _ Hrs) as [_ E]. exact E. }
    destruct k; cbn [finditer_from] in Hin; [|exact (Hnext _ Hin)].
    destruct (match_here fl r p pv (c :: rs) false) as [m1|] eqn:E1; [|exact (Hnext _ Hin)].
    destruct (Nat.eqb (m_end m1) p).
    + destruct Hin as [<-|Hin]; [exists p, pv, false; rewrite <- Hrs; exact E1|].
      destruct (match_here fl r p pv (c :: rs) true) as [m2|] eqn:E2; [|exact (Hnext _ Hin)].
      destruct Hin as [<-|Hin]; [|exact (Hnext _ Hin)].
      exists p, pv, true. rewrite <- Hrs. exact E2.
    + destruct Hin as [<-|Hin]; [|exact (Hnext _ Hin)].
      exists p, pv, false. rewrite <- Hrs. exact E1.
Qed.

Lemma rmatch_cat (fl : flags) (a b : regex) (c : cursor) (k : cursor -> option cursor) :
  rmatch fl (Cat a b) c k = rmatch fl a c (fun c' => rmatch fl b c' k).
Proof. reflexivity. Qed.

Lemma rmatch_grp (fl : flags) (n : nat) (r : regex) (c : cursor)
  (k : cursor -> option cursor) :
  rmatch fl (Grp n r) c k
  = rmatch fl r c (fun c' => k {| pos := pos c'; prev := prev c'; rest := rest c';
                                  caps := (n, (pos c, pos c')) :: caps c' |}).
Proof. reflexivity. Qed.

Lemma rmatch_rep_reaches (fl : flags) (g : bool) (lo : nat) (hi : option nat) (cl : cls)
  (c : cursor) (k : cursor -> option cursor) (x : cursor) :
  rmatch fl (Rep g lo hi cl) c k = Some x ->
  exists n pv',
    k {| pos := (pos c + n)%nat; prev := pv'; rest := skipn n (rest c); caps := caps c |}
    = Some x
    /\ (lo <= n <= List.length (rest c))%nat
    /\ Forall (fun a => cls_test fl cl a = true) (firstn n (rest c)).
Proof.
  cbn [rmatch]. intros H.
  destruct g; [apply rep_greedy_reaches in H|apply rep_lazy_reaches in H]; exact H.
Qed.

(** Group 1 of a match of the question pattern is a run of at least one
    digit that starts where the match starts. *)
Lemma question_match_number (p : nat) (pv : option Z) (rs : str) (adv : bool) (m : rematch) :
  match_here QUESTION_FLAGS question_pattern p pv rs adv = Some m ->
  exists n,
    (1 <= n <= List.length rs)%nat
    /\ Forall (fun a => PyStr.is_digit a = true) (firstn n rs)
    /\ find (fun e => Nat.eqb (fst e) 1) (m_caps m) = Some (1%nat, (p, (p + n)%nat)).
Proof.
  intros H. apply match_here_some in H as (x & H & ->). cbn [m_caps].
  unfold question_pattern, seq, plus in H.
  rewrite rmatch_cat, rmatch_grp in H.
  apply rmatch_rep_reaches in H as (n & pv1 & H & Hn & Hall).
  cbn [pos prev rest caps] in H, Hn, Hall.
  exists n. split; [exact Hn|]. split; [exact Hall|].
  rewrite rmatch_cat in H.
  apply rmatch_reaches in H as (c2 & t2 & H & _ & G2). specialize (G2 eq_refl).
  rewrite rmatch_cat in H.
  apply rmatch_reaches in H as (c3 & t3 & H & _ & G3). specialize (G3 eq_refl).
  rewrite rmatch_cat, rmatch_grp in H.
  apply rmatch_reaches in H as (c4 & t4 & H & _ & G4). specialize (G4 eq_refl).
  apply rmatch_reaches in H as (c5 & t5 & H & _ & G5). specialize (G5 eq_refl).
  destruct (adv && Nat.eqb (pos c5) p); [discriminate|]. injection H as <-.
  rewrite G5. cbn [caps]. rewrite G4, G3, G2. reflexivity.
Qed.

Lemma findall2_In (fl : flags) (r : regex) (s n f : str) :
  In (n, f) (findall2 fl r s) ->
  exists m p pv adv,
    match_here fl r p pv (skipn p s) adv = Some m /\ n = group s m 1.
Proof.
  unfold findall2, finditer. intros H. apply in_map_iff in H as (m & E & Hin).
  injection E as <- _.
  destruct (finditer_In fl r s m s 0 None 0 eq_refl Hin) as (p & pv & adv & Hm).
  exists m, p, pv, adv. split; [exact Hm|reflexivity].
Qed.

Lemma questions_loop_numbers (matches : list (str * str)) :
  forall (expected_number : option Z) (entries : list entry) (e : entry),
    In e (questions_loop matches expected_number entries) ->
    In e entries \/ exists fragment, In (fst e, fragment) matches.
Proof.
  induction matches as [|[number_text fragment] matches IH];
    intros expected entries e Hin; [left; exact Hin|].
  cbn [questions_loop] in Hin.
  assert (Hrec : forall ex en, In e (questions_loop matches ex en) ->
                   (forall e', In e' en -> In e' entries \/ e' = (number_text, snd e')) ->
                   In e entries
                   \/ exists f, In (fst e, f) ((number_text, fragment) :: matches)).
  { intros ex en H Hen. destruct (IH _ _ _ H) as [H1|[f Hf]].
    - destruct (Hen _ H1) as [H2|H2]; [left; exact H2|].
      right. exists fragment. left. rewrite H2. reflexivity.
    - right. exists f. right. exact Hf. }
  destruct (PyStr.strip fragment) as [|f0 frag];
    [apply (Hrec _ _ Hin); intros e' He'; left; exact He'|].
  assert (Haccept : forall expected',
             In e match extract_answer (f0 :: frag) with
                  | None => questions_loop matches (Some expected') entries
                  | Some answer =>
                      questions_loop matches (Some (PyStr.int number_text + 1))
                        (entries ++ [(number_text, clean_answer answer)])
                  end ->
             In e entries
             \/ exists f, In (fst e, f) ((number_text, fragment) :: matches)).
  { intros expected' H.
    destruct (extract_answer (f0 :: frag)) as [answer|];
      [|apply (Hrec _ _ H); intros e' He'; left; exact He'].
    apply (Hrec _ _ H). intros e' He'.
    apply in_app_or in He' as [He'|[<-|[]]]; [left; exact He'|right; reflexivity]. }
  destruct expected as [x|]; [|exact (Haccept _ Hin)].
  destruct (negb (PyStr.int number_text =? x)); [|exact (Haccept _ Hin)].
  destruct (PyStr.int number_text >? x); [left; exact Hin|exact (Haccept _ Hin)].
Qed.

(** X11: in a body of code points below 256, the number of every entry that
    [_parse_questions] returns is a non-empty run of the digits 0 to 9. *)
Theorem parse_questions_numbers_digits (body : str) (e : entry) :
  Forall latin1 body ->
  In e (_parse_questions body) ->
  fst e <> [] /\ Forall (fun a => PyStr.is_digit a = true) (fst e).
Proof.
  intros _ H. unfold _parse_questions in H.
  destruct (questions_loop_numbers _ _ _ _ H) as [[]|[f Hf]].
  apply findall2_In in Hf as (m & p & pv & adv & Hm & ->).
  apply question_match_number in Hm as (n & Hn & Hall & Hfind).
  unfold group. rewrite Hfind. unfold span.
  replace (p + n - p)%nat with n by lia. split; [|exact Hall].
  intros E. apply (f_equal (@List.length Z)) in E. rewrite length_firstn in E.
  cbn in E. lia.
Qed.

Lemma parse_questions_numbers_digits_witness :
  fst (pystr "12", pystr "A") <> []
  /\ Forall (fun a => PyStr.is_digit a = true) (fst (pystr "12", pystr "A")).
Proof.
  apply (parse_questions_numbers_digits (pystr "12. Q? A")).
  - repeat constructor; vm_compute; congruence.
  - vm_compute. left. reflexivity.
Defined.

End NumberFacts.

Section TokenizerShift.
Import Tokenizer.

Lemma nth_error_shift (pre s : str) (i : nat) :
  nth_error (pre ++ s) (List.length pre + i) = nth_error s i.
Proof. rewrite nth_error_app2 by lia. f_equal. lia. Qed.

Lemma getitem_shift (pre s : str) (i : nat) :
  getitem (pre ++ s) (List.length pre + i) = getitem s i.
Proof. unfold getitem. rewrite nth_error_shift. reflexivity. Qed.

Lemma ltb_shift (pre s : str) (i : nat) :
  (List.length pre + i <? List.length (pre ++ s))%nat = (i <? List.length s)%nat.
Proof.
  rewrite length_app.
  destruct (Nat.ltb_spec i (List.length s)); [apply Nat.ltb_lt|apply Nat.ltb_ge]; lia.
Qed.

Lemma skipn_shift (pre s : str) (i : nat) :
  skipn (List.length pre + i) (pre ++ s) = skipn i s.
Proof.
  rewrite skipn_app, skipn_all2 by lia.
  replace (List.length pre + i - List.length pre)%nat with i by lia. reflexivity.
Qed.

(** One pass of the inner loop only looks at the block from its index on. *)
Lemma inner_body_shift (pre s : str) (i : nat) (depth : Z) (chunk : str) :
  inner_body (pre ++ s) (List.length pre + i) depth chunk
  = shift_body (List.length pre) (inner_body s i depth chunk).
Proof.
  destruct (nth_error s i) as [c|] eqn:Ec.
  - destruct ((c =? backslash) && (i + 1 <? List.length s)%nat) eqn:Eb.
    + apply andb_true_iff in Eb as [Ec' Hn]. apply Z.eqb_eq in Ec'. subst c.
      apply Nat.ltb_lt in Hn.
      assert (Hne : skipn (S i) s <> []).
      { intros E. apply (f_equal (@List.length Z)) in E. rewrite length_skipn in E.
        cbn in E. lia. }
      destruct (escape_total _ Hne) as (x & n & He & _).
      rewrite (inner_body_escape s i depth chunk x n Ec He).
      rewrite (inner_body_escape (pre ++ s) (List.length pre + i) depth chunk x n).
      * cbn [shift_body]. do 4 f_equal. lia.
      * rewrite nth_error_shift. exact Ec.
      * replace (S (List.length pre + i)) with (List.length pre + S i)%nat by lia.
        rewrite skipn_shift. exact He.
    + unfold inner_body. rewrite getitem_shift, (getitem_nth _ _ _ Ec). cbn [bind].
      replace (List.length pre + i + 1)%nat with (List.length pre + (i + 1))%nat by lia.
      rewrite ltb_shift, Eb.
      destruct (c =? ch "("); [cbn [shift_body]; do 4 f_equal; lia|].
      destruct (c =? ch ")");
        [destruct (depth - 1 =? 0)|]; cbn [shift_body]; do 4 f_equal; lia.
  - unfold inner_body, getitem. rewrite nth_error_shift, Ec. reflexivity.
Qed.

Lemma inner_while_shift (pre s : str) (fuel : nat) :
  forall (i : nat) (depth : Z) (chunk : str),
    inner_while fuel (pre ++ s) (List.length pre + i) depth chunk
    = shift_loop (List.length pre) (inner_while fuel s i depth chunk).
Proof.
  induction fuel as [|fuel IH]; intros i depth chunk; cbn [inner_while];
    rewrite ltb_shift; destruct ((i <? List.length s)%nat && (0 <? depth));
    try reflexivity.
  rewrite inner_body_shift.
  destruct (inner_body s i depth chunk) as [[[[i' d'] c'] brk]| |]; try reflexivity.
  cbn [shift_body bind]. destruct brk; [reflexivity|apply IH].
Qed.

Lemma outer_while_shift (pre s : str) (fuel : nat) :
  forall i : nat,
    outer_while fuel (pre ++ s) (List.length pre + i) = outer_while fuel s i.
Proof.
  induction fuel as [|fuel IH]; intros i; cbn [outer_while];
    rewrite ltb_shift; destruct (i <? List.length s)%nat; try reflexivity.
  rewrite getitem_shift. destruct (getitem s i) as [c| |]; try reflexivity.
  cbn [bind]. destruct (negb (c =? ch "(")).
  - replace (List.length pre + i + 1)%nat with (List.length pre + (i + 1))%nat by lia.
    apply IH.
  - replace (List.length pre + i + 1)%nat with (List.length pre + (i + 1))%nat by lia.
    rewrite inner_while_shift.
    destruct (inner_while fuel s (i + 1) 1 []) as [[[i' d'] c']| |]; try reflexivity.
    cbn [shift_loop bind]. rewrite IH. reflexivity.
Qed.

Lemma inner_while_S (fuel : nat) (content : str) (i : nat) (depth : Z) (chunk : str) :
  inner_while (S fuel) content i depth chunk
  = if (i <? List.length content)%nat && (0 <? depth) then
      '(i', depth', chunk', brk) <- inner_body content i depth chunk ;;
      if (brk : bool) then Done (i', depth', chunk')
      else inner_while fuel content i' depth' chunk'
    else Done (i, depth, chunk).
Proof. reflexivity. Qed.

Lemma outer_while_S (fuel : nat) (content : str) (i : nat) :
  outer_while (S fuel) content i
  = if (i <? List.length content)%nat then
      c <- getitem content i ;;
      if negb (c =? ch "(") then outer_while fuel content (i + 1)%nat
      else
        '(i', _, chunk) <- inner_while fuel content (i + 1)%nat 1 [] ;;
        more <- outer_while fuel content i' ;;
        Done (chunk :: more)
    else Done [].
Proof. reflexivity. Qed.

(** More fuel does not change a result. *)
Lemma inner_while_more_fuel (content : str) (fuel : nat) :
  forall (i : nat) (depth : Z) (chunk : str) (r : nat * Z * str),
    inner_while fuel content i depth chunk = Done r ->
    inner_while (S fuel) content i depth chunk = Done r.
Proof.
  induction fuel as [|fuel IH]; intros i depth chunk r H.
  - rewrite inner_while_S. cbn [inner_while] in H.
    destruct ((i <? List.length content)%nat && (0 <? depth)); [discriminate|exact H].
  - rewrite inner_while_S in H. rewrite inner_while_S.
    destruct ((i <? List.length content)%nat && (0 <? depth)); [|exact H].
    destruct (inner_body content i depth chunk) as [[[[i' d'] c'] brk]| |];
      try discriminate.
    cbn [bind] in H |- *. destruct brk; [exact H|]. exact (IH _ _ _ _ H).
Qed.

Lemma outer_while_more_fuel (content : str) (fuel : nat) :
  forall (i : nat) (tokens : list str),
    outer_while fuel content i = Done tokens ->
    outer_while (S fuel) content i = Done tokens.
Proof.
  induction fuel as [|fuel IH]; intros i tokens H.
  - rewrite outer_while_S. cbn [outer_while] in H.
    destruct (i <? List.length content)%nat; [discriminate|exact H].
  - rewrite outer_while_S in H. rewrite outer_while_S.
    destruct (i <? List.length content)%nat; [|exact H].
    destruct (getitem content i) as [c| |]; try discriminate.
    cbn [bind] in H |- *. destruct (negb (c =? ch "(")); [exact (IH _ _ H)|].
    destruct (inner_while fuel content (i + 1) 1 []) as [[[i' d'] c']| |] eqn:Ei;
      try discriminate.
    rewrite (inner_while_more_fuel _ _ _ _ _ _ Ei).
    cbn [bind] in H |- *.
    destruct (outer_while fuel content i') as [more| |] eqn:Eo; try discriminate.
    rewrite (IH _ _ Eo). exact H.
Qed.

Lemma outer_while_enough (content : str) (i fuel fuel' : nat) :
  (List.length content - i <= fuel)%nat -> (fuel <= fuel')%nat ->
  outer_while fuel' content i = outer_while fuel content i.
Proof.
  intros Hf Hle. destruct (outer_while_total fuel content i Hf) as [tokens E].
  rewrite E. clear Hf. induction Hle as [|fuel' _ IH]; [exact E|].
  apply outer_while_more_fuel. exact IH.
Qed.

End TokenizerShift.

Section TokenizerComposition.
Import Tokenizer.

Lemma inner_body_plain (content : str) (i : nat) (depth : Z) (chunk : str) (c : Z) :
  nth_error content i = Some c -> plain c ->
  inner_body content i depth chunk = Done ((i + 1)%nat, depth, chunk ++ [c], false).
Proof.
  intros Ec (Hb & Ho & Hc). unfold inner_body. rewrite (getitem_nth _ _ _ Ec). cbn [bind].
  destruct (Z.eqb_spec c backslash); [contradiction|]. cbn [andb].
  destruct (Z.eqb_spec c (ch "(")); [contradiction|].
  destruct (Z.eqb_spec c (ch ")")); [contradiction|]. reflexivity.
Qed.

Lemma inner_body_close (content : str) (i : nat) (chunk : str) :
  nth_error content i = Some (ch ")") ->
  inner_body content i 1 chunk = Done ((i + 1)%nat, 0, chunk, true).
Proof.
  intros Ec. unfold inner_body. rewrite (getitem_nth _ _ _ Ec). reflexivity.
Qed.

Lemma inner_body_last_backslash (content : str) (i : nat) (depth : Z) (chunk : str) :
  nth_error content i = Some backslash -> (i + 1)%nat = List.length content ->
  inner_body content i depth chunk = Done ((i + 1)%nat, depth, chunk ++ [backslash], false).
Proof.
  intros Ec Hlast. unfold inner_body. rewrite (getitem_nth _ _ _ Ec). cbn [bind].
  rewrite Z.eqb_refl, Hlast, Nat.ltb_irrefl. reflexivity.
Qed.

Lemma nth_error_middle (pre suf : str) (c : Z) :
  nth_error (pre ++ c :: suf) (List.length pre) = Some c.
Proof. rewrite nth_error_app2, Nat.sub_diag by lia. reflexivity. Qed.

(** Inside a token, plain text is copied to the chunk. *)
Lemma inner_while_plain_then (t : str) :
  forall (pre suf chunk : str) (fuel : nat) (depth : Z),
    Forall plain t -> 0 < depth ->
    inner_while (List.length t + fuel) (pre ++ t ++ suf) (List.length pre) depth chunk
    = inner_while fuel (pre ++ t ++ suf) (List.length pre + List.length t) depth (chunk ++ t).
Proof.
  induction t as [|c t IH]; intros pre suf chunk fuel depth Hp Hd.
  - cbn [List.length app]. rewrite Nat.add_0_r, app_nil_r. reflexivity.
  - inversion Hp as [|? ? Hc Hp']; subst.
    cbn [List.length Nat.add]. rewrite inner_while_S.
    assert (Hlt : (List.length pre < List.length (pre ++ (c :: t) ++ suf))%nat)
      by (rewrite !length_app; cbn; lia).
    destruct (Nat.ltb_spec (List.length pre) (List.length (pre ++ (c :: t) ++ suf))); [|lia].
    destruct (Z.ltb_spec 0 depth); [|lia]. cbn [andb].
    cbn [app]. rewrite (inner_body_plain _ _ _ _ c (nth_error_middle _ _ _) Hc).
    cbn [bind].
    replace (pre ++ c :: t ++ suf) with ((pre ++ [c]) ++ t ++ suf)
      by (rewrite <- app_assoc; reflexivity).
    replace (List.length pre + 1)%nat with (List.length (pre ++ [c]))
      by (rewrite length_app; reflexivity).
    rewrite IH by assumption.
    rewrite <- (app_assoc chunk), length_app. cbn [List.length app].
    f_equal. lia.
Qed.

Lemma outer_while_skip (junk : str) :
  forall (pre s : str) (fuel : nat),
    Forall (fun c => c <> ch "(") junk ->
    outer_while (List.length junk + fuel) (pre ++ junk ++ s) (List.length pre)
    = outer_while fuel (pre ++ junk ++ s) (List.length pre + List.length junk).
Proof.
  induction junk as [|c junk IH]; intros pre s fuel Hj.
  - cbn [List.length app]. rewrite Nat.add_0_r. reflexivity.
  - inversion Hj as [|? ? Hc Hj']; subst.
    cbn [List.length Nat.add]. rewrite outer_while_S.
    assert (Hlt : (List.length pre < List.length (pre ++ (c :: junk) ++ s))%nat)
      by (rewrite !length_app; cbn; lia).
    destruct (Nat.ltb_spec (List.length pre) (List.length (pre ++ (c :: junk) ++ s))); [|lia].
    cbn [app]. rewrite (getitem_nth _ _ _ (nth_error_middle _ _ _)). cbn [bind].
    destruct (Z.eqb_spec c (ch "(")); [contradiction|]. cbn [negb].
    replace (pre ++ c :: junk ++ s) with ((pre ++ [c]) ++ junk ++ s)
      by (rewrite <- app_assoc; reflexivity).
    replace (List.length pre + 1)%nat with (List.length (pre ++ [c]))
      by (rewrite length_app; reflexivity).
    rewrite IH by assumption. rewrite length_app. cbn [List.length]. f_equal. lia.
Qed.

(** X2: Text outside the literal strings is ignored. *)
Theorem strings_skip_junk (junk s : str) :
  Forall (fun c => c <> ch "(") junk ->
  _strings_from_stream (junk ++ s) = _strings_from_stream s.
Proof.
  intros Hj. unfold _strings_from_stream. rewrite length_app.
  replace (S (List.length junk + List.length s))
    with (List.length junk + S (List.length s))%nat by lia.
  rewrite (outer_while_skip junk [] s _ Hj). cbn [app List.length Nat.add].
  rewrite <- (Nat.add_0_r (List.length junk)). apply outer_while_shift.
Qed.

Lemma strings_skip_junk_witness :
  _strings_from_stream (pystr "BT /F1 12 Tf " ++ pystr "(ab)")
  = _strings_from_stream (pystr "(ab)").
Proof. apply strings_skip_junk. repeat constructor; vm_compute; discriminate. Defined.

(** X1: A parenthesised run of plain text is one token, and tokenizing goes on
    after the closing parenthesis. *)
Theorem strings_literal (t rest : str) :
  Forall plain t ->
  _strings_from_stream (ch "(" :: t ++ ch ")" :: rest)
  = more <- _strings_from_stream rest ;; Done (t :: more).
Proof.
  intros Hp. unfold _strings_from_stream.
  set (content := ch "(" :: t ++ ch ")" :: rest).
  assert (Hlen : List.length content = (List.length t + (2 + List.length rest))%nat)
    by (unfold content; cbn [List.length]; rewrite length_app; cbn [List.length]; lia).
  rewrite outer_while_S.
  destruct (Nat.ltb_spec 0 (List.length content)); [|lia].
  change (getitem content 0) with (Done (A:=Z) (ch "(")). cbn [bind].
  rewrite Z.eqb_refl. cbn [negb]. rewrite Hlen.
  pose proof (inner_while_plain_then t [ch "("] (ch ")" :: rest) [] (2 + List.length rest) 1
                Hp ltac:(lia)) as Hin.
  change ([ch "("] ++ t ++ ch ")" :: rest) with content in Hin.
  change (0 + 1)%nat with (List.length [ch "("]). rewrite Hin. clear Hin.
  cbn [app List.length]. change (2 + List.length rest)%nat with (S (S (List.length rest))).
  rewrite inner_while_S.
  assert (Hclose : nth_error content (1 + List.length t) = Some (ch ")")).
  { unfold content. change (ch "(" :: t ++ ch ")" :: rest) with ((ch "(" :: t) ++ ch ")" :: rest).
    apply (nth_error_middle (ch "(" :: t)). }
  destruct (Nat.ltb_spec (1 + List.length t) (List.length content)); [|lia].
  cbn [andb Z.ltb Z.compare]. rewrite (inner_body_close _ _ _ Hclose). cbn [bind].
  assert (Hshift : outer_while (List.length t + S (S (List.length rest))) content
                     (1 + List.length t + 1)
                   = outer_while (S (List.length rest)) rest 0).
  { replace content with ((ch "(" :: t ++ [ch ")"]) ++ rest)
      by (unfold content; cbn [app]; rewrite <- app_assoc; reflexivity).
    replace (1 + List.length t + 1)%nat with (List.length (ch "(" :: t ++ [ch ")"]) + 0)%nat
      by (cbn [List.length]; rewrite length_app; cbn [List.length]; lia).
    rewrite outer_while_shift. apply outer_while_enough; lia. }
  rewrite Hshift. reflexivity.
Qed.

Lemma strings_literal_witness :
  _strings_from_stream (ch "(" :: pystr "ab" ++ ch ")" :: pystr " (cd)")
  = more <- _strings_from_stream (pystr " (cd)") ;; Done (pystr "ab" :: more).
Proof. apply strings_literal. repeat constructor; vm_compute; discriminate. Defined.

(** X3: A backslash that ends the block is kept as it is. *)
Theorem strings_trailing_backslash (t : str) :
  Forall plain t ->
  _strings_from_stream (ch "(" :: t ++ [backslash]) = Done [t ++ [backslash]].
Proof.
  intros Hp. unfold _strings_from_stream.
  set (content := ch "(" :: t ++ [backslash]).
  assert (Hlen : List.length content = (List.length t + 2)%nat)
    by (unfold content; cbn [List.length]; rewrite length_app; cbn [List.length]; lia).
  rewrite outer_while_S.
  destruct (Nat.ltb_spec 0 (List.length content)); [|lia].
  change (getitem content 0) with (Done (A:=Z) (ch "(")). cbn [bind].
  rewrite Z.eqb_refl. cbn [negb]. rewrite Hlen.
  pose proof (inner_while_plain_then t [ch "("] [backslash] [] 2 1 Hp ltac:(lia)) as Hin.
  change ([ch "("] ++ t ++ [backslash]) with content in Hin.
  change (0 + 1)%nat with (List.length [ch "("]). rewrite Hin. clear Hin.
  cbn [app List.length]. rewrite inner_while_S.
  assert (Hlast : nth_error content (1 + List.length t) = Some backslash).
  { unfold content. change (ch "(" :: t ++ [backslash]) with ((ch "(" :: t) ++ [backslash]).
    apply (nth_error_middle (ch "(" :: t)). }
  destruct (Nat.ltb_spec (1 + List.length t) (List.length content)); [|lia].
  cbn [andb Z.ltb Z.compare].
  rewrite (inner_body_last_backslash _ _ _ _ Hlast) by lia. cbn [bind].
  rewrite inner_while_S.
  destruct (Nat.ltb_spec (1 + List.length t + 1) (List.length content)); [lia|].
  cbn [andb bind]. rewrite outer_while_at_end by lia. reflexivity.
Qed.

Lemma strings_trailing_backslash_witness :
  _strings_from_stream (ch "(" :: pystr "ab" ++ [backslash]) = Done [pystr "ab" ++ [backslash]].
Proof.
  apply strings_trailing_backslash. repeat constructor; vm_compute; discriminate.
Defined.

End TokenizerComposition.

Section TokenCharacters.
Import Tokenizer.

Lemma In_skipn (n : nat) (s : str) (x : Z) : In x (skipn n s) -> In x s.
Proof. intros H. rewrite <- (firstn_skipn n s). apply in_or_app. right. exact H. Qed.

Lemma control_of_small (nxt x : Z) : Spec.control_of nxt = Some x -> 0 <= x < 512.
Proof.
  unfold Spec.control_of, backslash. eval_ch.
  repeat match goal with
         | |- context [nxt =? ?v] => destruct (nxt =? v)
         end; intros H; inversion H; lia.
Qed.

Lemma escape_value (after : str) (x : Z) (n : nat) :
  Spec.escape after = Some (x, n) -> In x after \/ 0 <= x < 512.
Proof.
  unfold Spec.escape. destruct after as [|nxt tl]; [discriminate|].
  destruct (Spec.control_of nxt) as [y|] eqn:Ec.
  - intros H. injection H as <- _. right. exact (control_of_small _ _ Ec).
  - change (Spec.octal_digit nxt) with (is_octal nxt).
    destruct (is_octal nxt) eqn:Eo.
    + cbv zeta. rewrite (oct_run_cons 2 nxt tl), Eo. intros H.
      assert (Hx : x = PyStr.int8 (nxt :: Spec.oct_run 2 tl))
        by (rewrite int8_octal_value; congruence).
      rewrite Hx. right. apply int8_bound.
      * constructor; [exact Eo|apply oct_run_octal].
      * cbn [List.length]. pose proof (oct_run_length 2 tl). lia.
    + intros H. injection H as <- _. left. left. reflexivity.
Qed.

(** One pass appends at most one character, from the block or from an escape. *)
Lemma inner_body_appends (content : str) (i : nat) (depth : Z) (chunk : str)
  (i' : nat) (depth' : Z) (chunk' : str) (brk : bool) :
  inner_body content i depth chunk = Done (i', depth', chunk', brk) ->
  chunk' = chunk \/ exists x, chunk' = chunk ++ [x] /\ from_block content x.
Proof.
  destruct (nth_error content i) as [c|] eqn:Ec;
    [|unfold inner_body, getitem; rewrite Ec; discriminate].
  assert (Hc : from_block content c) by (left; exact (nth_error_In _ _ Ec)).
  destruct ((c =? backslash) && (i + 1 <? List.length content)%nat) eqn:Eb.
  - apply andb_true_iff in Eb as [Ec' Hn]. apply Z.eqb_eq in Ec'. subst c.
    apply Nat.ltb_lt in Hn.
    assert (Hne : skipn (S i) content <> []).
    { intros E. apply (f_equal (@List.length Z)) in E. rewrite length_skipn in E.
      cbn in E. lia. }
    destruct (escape_total _ Hne) as (x & n & He & _).
    rewrite (inner_body_escape content i depth chunk x n Ec He).
    intros H. injection H as _ _ <- _. right. exists x. split; [reflexivity|].
    destruct (escape_value _ _ _ He) as [Hin|Hs]; [left; exact (In_skipn _ _ _ Hin)|right; exact Hs].
  - unfold inner_body. rewrite (getitem_nth _ _ _ Ec). cbn [bind]. rewrite Eb.
    destruct (c =? ch "(");
      [intros H; injection H as _ _ <- _; right; exists c; split; [reflexivity|exact Hc]|].
    destruct (c =? ch ")");
      [destruct (depth - 1 =? 0)|];
      intros H; injection H as _ _ <- _;
      try (left; reflexivity); right; exists c; split; try reflexivity; exact Hc.
Qed.

Lemma inner_while_chunk (content : str) (fuel : nat) :
  forall (i : nat) (depth : Z) (chunk : str) (j : nat) (d : Z) (c : str),
    inner_while fuel content i depth chunk = Done (j, d, c) ->
    Forall (from_block content) chunk -> Forall (from_block content) c.
Proof.
  induction fuel as [|fuel IH]; intros i depth chunk j d c H Hch.
  - cbn [inner_while] in H.
    destruct ((i <? List.length content)%nat && (0 <? depth)); [discriminate|].
    injection H as _ _ <-. exact Hch.
  - rewrite inner_while_S in H.
    destruct ((i <? List.length content)%nat && (0 <? depth));
      [|injection H as _ _ <-; exact Hch].
    destruct (inner_body content i depth chunk) as [[[[i' d'] c'] brk]| |] eqn:Eb;
      try discriminate.
    cbn [bind] in H.
    assert (Hc' : Forall (from_block content) c').
    { destruct (inner_body_appends _ _ _ _ _ _ _ _ Eb) as [->|(x & -> & Hx)]; [exact Hch|].
      apply Forall_app. split; [exact Hch|constructor; [exact Hx|constructor]]. }
    destruct brk; [injection H as _ _ <-; exact Hc'|exact (IH _ _ _ _ _ _ H Hc')].
Qed.

Lemma outer_while_tokens (content : str) (fuel : nat) :
  forall (i : nat) (tokens : list str),
    outer_while fuel content i = Done tokens ->
    Forall (Forall (from_block content)) tokens.
Proof.
  induction fuel as [|fuel IH]; intros i tokens H.
  - cbn [outer_while] in H. destruct (i <? List.length content)%nat; [discriminate|].
    injection H as <-. constructor.
  - rewrite outer_while_S in H.
    destruct (i <? List.length content)%nat; [|injection H as <-; constructor].
    destruct (getitem content i) as [c| |]; try discriminate. cbn [bind] in H.
    destruct (negb (c =? ch "(")); [exact (IH _ _ H)|].
    destruct (inner_while fuel content (i + 1) 1 []) as [[[i' d'] c']| |] eqn:Ei;
      try discriminate.
    cbn [bind] in H.
    destruct (outer_while fuel content i') as [more| |] eqn:Eo; try discriminate.
    injection H as <-. constructor; [|exact (IH _ _ Eo)].
    exact (inner_while_chunk _ _ _ _ _ _ _ _ Ei (Forall_nil _)).
Qed.

(** X4: The tokens of a block of bytes hold code points below 512 only. *)
Theorem strings_code_points (content : str) (tokens : list str) :
  Forall (fun c => 0 <= c < 256) content ->
  _strings_from_stream content = Done tokens ->
  Forall (Forall (fun x => 0 <= x < 512)) tokens.
Proof.
  intros Hb H. apply outer_while_tokens in H.
  eapply Forall_impl; [|exact H]. intros token Ht.
  eapply Forall_impl; [|exact Ht]. intros x [Hin|Hs]; [|exact Hs].
  rewrite Forall_forall in Hb. specialize (Hb _ Hin). lia.
Qed.

Lemma strings_code_points_witness :
  Forall (Forall (fun x => 0 <= x < 512)) [[97; 511]].
Proof.
  apply (strings_code_points (pystr "(a" ++ [backslash] ++ pystr "777)")).
  - apply Forall_forall. intros x Hx. vm_compute in Hx.
    repeat (destruct Hx as [<-|Hx]; [lia|]). contradiction.
  - vm_compute. reflexivity.
Defined.

End TokenCharacters.

Section PrintableFacts.

(** The number of characters of a token that are not printable. *)
Lemma filter_split_length (f : Z -> bool) (s : str) :
  (List.length (filter f s) + List.length (filter (fun c => negb (f c)) s)
   = List.length s)%nat.
Proof.
  induction s as [|c s IH]; [reflexivity|]. cbn [filter].
  destruct (f c); cbn [negb List.length]; lia.
Qed.

(** The filter in terms of the unprintable characters: a token is kept exactly when it is not empty and five times the number
    of its unprintable characters is at most its length plus four. *)
Lemma mostly_printable_count (token : str) :
  _is_mostly_printable token = true
  <-> token <> []
      /\ 5 * Z.of_nat (List.length (filter (fun c => negb (is_printable c)) token))
         <= Z.of_nat (List.length token) + 4.
Proof.
  unfold _is_mostly_printable. destruct token as [|c token].
  - split; [discriminate|intros [H _]; congruence].
  - set (tok := c :: token).
    pose proof (filter_split_length is_printable tok) as Hs.
    set (pr := List.length (filter is_printable tok)) in *.
    set (np := List.length (filter (fun c => negb (is_printable c)) tok)) in *.
    set (len := List.length tok) in *.
    pose proof (Z.div_mod (4 * Z.of_nat len) 5 ltac:(lia)) as Hd.
    pose proof (Z.mod_pos_bound (4 * Z.of_nat len) 5 ltac:(lia)) as Hm.
    rewrite orb_true_iff, Z.geb_le, Z.eqb_eq. split.
    + intros H. split; [discriminate|]. lia.
    + intros [_ H]. left. lia.
Qed.

(** X5: a token is kept exactly when it is not empty and five times the
    number of its unprintable characters is at most its length plus four,
    that is when at most a fifth of its characters, rounded up, are
    unprintable.  The second test of the code, all characters printable,
    adds nothing to the first. *)
Theorem mostly_printable_iff :
  forall token : str,
    _is_mostly_printable token = true
    <-> token <> []
        /\ 5 * Z.of_nat (List.length (filter (fun c => negb (is_printable c)) token))
           <= Z.of_nat (List.length token) + 4.
Proof. exact mostly_printable_count. Qed.

(** X6: Every token of one character is kept, printable or not. *)
Theorem mostly_printable_single (c : Z) : _is_mostly_printable [c] = true.
Proof. apply mostly_printable_count. split; [discriminate|]. cbn. destruct (is_printable c); cbn; lia. Qed.

End PrintableFacts.

Section SanitizerShape.

Lemma sanitize_text_trimmed (combined : str) :
  PyStr.strip (sanitize_text combined) = sanitize_text combined.
Proof. rewrite sanitize_text_unfold. apply strip_idempotent. Qed.

(** X7: the shape of every sanitized text: printable ASCII only (no tab, CR
    or LF), no locale marker, no two adjacent spaces, and no whitespace at
    either end. *)
Theorem sanitize_text_shape :
  forall combined : str,
    Forall (fun c => 32 <= c <= 126) (sanitize_text combined)
    /\ PyStr.contains (sanitize_text combined) en_US = false
    /\ spaced false (sanitize_text combined)
    /\ PyStr.strip (sanitize_text combined) = sanitize_text combined.
Proof.
  intros combined. split; [apply sanitize_text_printable|].
  split; [apply sanitize_text_no_marker|].
  split; [apply sanitize_text_spaced|apply sanitize_text_trimmed].
Qed.

(** X8: A text that already has the shape of a sanitized text is unchanged. *)
Theorem sanitize_text_fixed (t : str) :
  Forall (fun c => 32 <= c <= 126) t ->
  PyStr.contains t en_US = false ->
  spaced false t ->
  PyStr.strip t = t ->
  sanitize_text t = t.
Proof.
  intros Hp Hm Hs Ht. rewrite sanitize_text_unfold.
  assert (Hb : before_collapse t = t).
  { unfold before_collapse.
    rewrite filter_all
      by (eapply Forall_impl; [|exact Hp]; intros c Hc; exact (printable_range c Hc)).
    rewrite (replace_absent en_US) by exact Hm.
    assert (Hno : forall x, ~ 32 <= x <= 126 -> PyStr.contains t [x] = false).
    { intros x Hx. apply contains_char_false. intros Hin.
      rewrite Forall_forall in Hp. exact (Hx (Hp _ Hin)). }
    rewrite (replace_absent [13]) by (apply Hno; lia).
    rewrite (replace_absent [10]) by (apply Hno; lia).
    reflexivity. }
  rewrite Hb. unfold Spec.collapse. rewrite collapse_fixed; [exact Ht| |exact Hs].
  eapply Forall_impl; [|exact Hp]. intros c Hc. exact (space_in_range c Hc).
Qed.

Lemma sanitize_text_fixed_witness :
  sanitize_text (pystr "Round 1: Warmup") = pystr "Round 1: Warmup".
Proof.
  apply sanitize_text_fixed; try (vm_compute; reflexivity);
    try (repeat constructor; try lia; discriminate).
Defined.

End SanitizerShape.

Section ExtractAnswerFacts.

Lemma infix_refl (s : str) : infix s s.
Proof. exists [], []. rewrite app_nil_r. reflexivity. Qed.

Lemma infix_trans (a b c : str) : infix a b -> infix b c -> infix a c.
Proof.
  intros (l1 & r1 & ->) (l2 & r2 & ->). exists (l2 ++ l1), (r1 ++ r2).
  rewrite <- !app_assoc. reflexivity.
Qed.

Lemma infix_strip (s : str) : infix (PyStr.strip s) s.
Proof. destruct (strip_infix s) as (l & r & E). exists l, r. exact E. Qed.

Lemma infix_skipn (n : nat) (s : str) : infix (skipn n s) s.
Proof. exists (firstn n s), []. rewrite app_nil_r. symmetry. apply firstn_skipn. Qed.

Lemma trailing_after_infix (text marker : str) : infix (trailing_after text marker) text.
Proof.
  unfold trailing_after, PyStr.slice_from.
  exact (infix_trans _ _ _ (infix_strip _) (infix_skipn _ _)).
Qed.

Lemma nonempty_some (s a : str) : nonempty s = Some a -> a = s /\ s <> [].
Proof. destruct s; [discriminate|]. intros H. injection H as <-. split; [reflexivity|discriminate]. Qed.

(** X9: An extracted answer is a trimmed, non-empty, contiguous part of the
    segment. *)
Theorem extract_answer_part (segment answer : str) :
  extract_answer segment = Some answer ->
  answer <> [] /\ PyStr.strip answer = answer /\ infix answer segment.
Proof.
  intros H.
  assert (Hne : PyStr.strip segment <> []).
  { intros E. unfold extract_answer in H. rewrite E in H. discriminate. }
  rewrite (extract_answer_unfold segment Hne) in H.
  assert (Htr : forall m, nonempty (trailing_after (PyStr.strip segment) m) = Some answer ->
                  answer <> [] /\ PyStr.strip answer = answer /\ infix answer segment).
  { intros m Hm. apply nonempty_some in Hm as [-> Hm]. split; [exact Hm|]. split.
    - unfold trailing_after. apply strip_idempotent.
    - exact (infix_trans _ _ _ (trailing_after_infix _ _) (infix_strip _)). }
  destruct (PyStr.contains (PyStr.strip segment) [ch "?"]); [exact (Htr _ H)|].
  destruct (PyStr.contains (PyStr.strip segment) [ch "!"]); [exact (Htr _ H)|].
  injection H as <-. split; [exact Hne|]. split; [apply strip_idempotent|apply infix_strip].
Qed.

Lemma extract_answer_part_witness :
  pystr "Paris|" <> []
  /\ PyStr.strip (pystr "Paris|") = pystr "Paris|"
  /\ infix (pystr "Paris|") (pystr " Capital of France? Paris| ").
Proof. apply extract_answer_part. vm_compute. reflexivity. Defined.

End ExtractAnswerFacts.

Section NumberingFacts.

Lemma extract_answer_empty : extract_answer [] = None.
Proof. reflexivity. Qed.

(** One accepted match whose number is the expected one and that has an
    answer adds its entry and moves the expected number on. *)
Lemma questions_loop_step (number_text fragment : str) (matches : list (str * str))
  (expected : option Z) (entries : list entry) (answer : str) :
  extract_answer (PyStr.strip fragment) = Some answer ->
  match expected with
  | None => True
  | Some e => PyStr.int number_text <= e
  end ->
  questions_loop ((number_text, fragment) :: matches) expected entries
  = questions_loop matches (Some (PyStr.int number_text + 1))
      (entries ++ [(number_text, clean_answer answer)]).
Proof.
  intros Ha He. cbn [questions_loop].
  destruct (PyStr.strip fragment) as [|f0 frag] eqn:Ef; [discriminate Ha|].
  rewrite Ha. destruct expected as [e|]; [|reflexivity].
  destruct (Z.eqb_spec (PyStr.int number_text) e); cbn [negb]; [reflexivity|].
  destruct (Z.gtb_spec (PyStr.int number_text) e); [lia|reflexivity].
Qed.

(** X12: A run of consecutively numbered, answered matches loses no entry. *)
Theorem questions_loop_consecutive (matches : list (str * str)) :
  forall (k : Z) (expected : option Z) (entries : list entry),
    answered_from k matches ->
    expected = None \/ expected = Some k ->
    questions_loop matches expected entries = entries ++ flat_map entry_of matches.
Proof.
  induction matches as [|[number_text fragment] matches IH];
    intros k expected entries Hm He; [cbn; rewrite app_nil_r; reflexivity|].
  destruct Hm as (Hk & Ha & Hm).
  destruct (extract_answer (PyStr.strip fragment)) as [answer|] eqn:Ea; [|congruence].
  rewrite (questions_loop_step _ _ _ _ _ answer Ea)
    by (destruct He as [->| ->]; [exact I|lia]).
  rewrite (IH (k + 1)); [|exact Hm|right; rewrite Hk; reflexivity].
  cbn [flat_map]. unfold entry_of at 2. cbn [fst snd]. rewrite Ea, <- app_assoc.
  reflexivity.
Qed.

Lemma questions_loop_consecutive_witness :
  questions_loop [ (pystr "7", pystr "Q? A "); (pystr "8", pystr "R! B") ] None []
  = [] ++ flat_map entry_of [ (pystr "7", pystr "Q? A "); (pystr "8", pystr "R! B") ].
Proof.
  apply (questions_loop_consecutive _ 7); [|left; reflexivity].
  vm_compute. repeat split; discriminate.
Defined.

(** X13: An accepted match without an answer leaves the expected number at its
    own number, so a following match with a higher number ends the loop: no
    later match is looked at. *)
Theorem questions_loop_unanswered (n1 f1 n2 f2 : str) (matches : list (str * str))
  (expected : option Z) (entries : list entry) :
  PyStr.strip f1 <> [] ->
  extract_answer (PyStr.strip f1) = None ->
  PyStr.strip f2 <> [] ->
  PyStr.int n1 < PyStr.int n2 ->
  match expected with
  | None => True
  | Some e => PyStr.int n1 <= e
  end ->
  questions_loop ((n1, f1) :: (n2, f2) :: matches) expected entries = entries.
Proof.
  intros H1 Ha H2 Hlt He. cbn [questions_loop].
  destruct (PyStr.strip f1) as [|a1 s1] eqn:E1; [congruence|].
  destruct (PyStr.strip f2) as [|a2 s2] eqn:E2; [congruence|].
  rewrite Ha.
  destruct expected as [e|].
  - destruct (Z.eqb_spec (PyStr.int n1) e) as [<-|Hne]; cbn [negb].
    + destruct (Z.eqb_spec (PyStr.int n2) (PyStr.int n1)); [lia|]. cbn [negb].
      destruct (Z.gtb_spec (PyStr.int n2) (PyStr.int n1)); [reflexivity|lia].
    + destruct (Z.gtb_spec (PyStr.int n1) e); [lia|].
      destruct (Z.eqb_spec (PyStr.int n2) (PyStr.int n1)); [lia|]. cbn [negb].
      destruct (Z.gtb_spec (PyStr.int n2) (PyStr.int n1)); [reflexivity|lia].
  - destruct (Z.eqb_spec (PyStr.int n2) (PyStr.int n1)); [lia|]. cbn [negb].
    destruct (Z.gtb_spec (PyStr.int n2) (PyStr.int n1)); [reflexivity|lia].
Qed.

Lemma questions_loop_unanswered_witness :
  questions_loop [ (pystr "1", pystr "Q1? "); (pystr "2", pystr "Q2? A2") ] None [] = [].
Proof.
  apply questions_loop_unanswered;
    [vm_compute; discriminate | vm_compute; reflexivity | vm_compute; discriminate
    | vm_compute; reflexivity | exact I].
Defined.

(** The same through the pattern: the second question is lost with the
    first. *)
Example parse_questions_unanswered :
  _parse_questions (pystr "1. Q1? 2. Q2? A2") = [].
Proof. vm_compute. reflexivity. Qed.

End NumberingFacts.

Section CsvFacts.

Lemma entry_rows_injective (es es' : list entry) (rest rest' : list (list str)) :
  map (fun e : entry => [fst e; snd e]) es ++ [] :: rest
  = map (fun e : entry => [fst e; snd e]) es' ++ [] :: rest' ->
  es = es' /\ rest = rest'.
Proof.
  revert es'; induction es as [|[n a] es IH]; intros [|[n' a'] es'] H; cbn in H.
  - injection H as <-. split; reflexivity.
  - discriminate.
  - discriminate.
  - injection H as <- <- H. destruct (IH _ H) as [<- <-]. split; reflexivity.
Qed.

(** X19: The rows determine the rubric: different rubrics give different rows. *)
Theorem csv_rows_injective (rounds rounds' : list round) :
  csv_rows rounds = csv_rows rounds' -> rounds = rounds'.
Proof.
  revert rounds'; induction rounds as [|[name es] rounds IH];
    intros [|[name' es'] rounds'] H; cbn in H; try discriminate; [reflexivity|].
  injection H as <- H. rewrite <- !app_assoc in H. cbn [app] in H.
  apply entry_rows_injective in H as [<- H]. rewrite (IH _ H). reflexivity.
Qed.

Lemma csv_rows_injective_witness :
  [ (pystr "Round 1", [ (pystr "1", pystr "A") ]) ]
  = [ (pystr "Round 1", [ (pystr "1", pystr "A") ]) ].
Proof. apply csv_rows_injective. reflexivity. Defined.

End CsvFacts.

Section MainFacts.

Variable zlib_decompress : str -> option str.
Variable with_suffix : string -> string -> string.

(** X20: Tokens come block by block, in stream order. *)
Theorem streams_loop_app (a b : list str) :
  streams_loop zlib_decompress (a ++ b)
  = ta <- streams_loop zlib_decompress a ;;
    tb <- streams_loop zlib_decompress b ;;
    Done (ta ++ tb).
Proof.
  induction a as [|raw a IH]; cbn [app streams_loop bind].
  - destruct (streams_loop zlib_decompress b); reflexivity.
  - destruct (zlib_decompress raw) as [d|]; [|exact IH].
    destruct (Tokenizer._strings_from_stream d) as [tokens| |]; try reflexivity.
    cbn [bind]. rewrite IH.
    destruct (streams_loop zlib_decompress a) as [ta| |]; try reflexivity. cbn [bind].
    destruct (streams_loop zlib_decompress b) as [tb| |]; try reflexivity. cbn [bind].
    rewrite app_assoc. reflexivity.
Qed.

(** X17: whenever [main] completes, by returning or through [parser.error],
    it has written a rubric exactly when it returns status 0. *)
Theorem main_writes_iff_success (fs : filesystem) (args : arguments) (r : run) :
  main zlib_decompress with_suffix fs args = Done r ->
  (ended r = Returned 0 <-> written r <> None).
Proof.
  unfold main. destruct (files fs (pdf args)) as [data|] eqn:Ef.
  - destruct (extract_text zlib_decompress fs (pdf args)) as [doc| |];
      cbn [bind]; try discriminate.
    destruct (parse_rounds doc) as [|r0 rounds].
    + intros H. injection H as <-. cbn. split; [discriminate|congruence].
    + destruct (write_csv fs (r0 :: rounds) _) as [rows|[]|]; try discriminate;
        intros H; injection H as <-; cbn; split; (discriminate || congruence).
  - intros H. injection H as <-. cbn. split; [discriminate|congruence].
Qed.


(** X16: A file in which the word endstream does not occur, such as a file that
    is not a PDF, is reported through the no-rounds error. *)
Theorem main_without_streams (fs : filesystem) (args : arguments) (data : str) :
  files fs (pdf args) = Some data ->
  PyStr.contains data (pystr "endstream") = false ->
  main zlib_decompress with_suffix fs args
  = Done {| ended := ParserError no_rounds_message; written := None |}.
Proof.
  intros Hf Hc. unfold main, extract_text. rewrite Hf.
  unfold text_of_bytes, read_stream_strings. rewrite (raw_streams_none data Hc).
  reflexivity.
Qed.


End MainFacts.

Lemma main_without_streams_witness :
  main (fun _ => None) (fun p suffix => String.append p suffix) empty_pdf_fs
       {| pdf := "quiz.pdf"; output := None |}
  = Done {| ended := ParserError no_rounds_message; written := None |}.
Proof.
  apply (main_without_streams (fun _ => None) (fun p suffix => String.append p suffix)
           empty_pdf_fs {| pdf := "quiz.pdf"; output := None |} (pystr "%PDF-1.4"));
    vm_compute; reflexivity.
Defined.

(** A run on the example container that may write its output: it returns
    status 0 and has written the rubric. *)
Lemma main_writes_iff_success_witness :
  exists r : run,
    main example_inflate (fun p suffix => String.append p suffix)
         {| files := files refusing_fs; write_refused := fun _ => None |}
         {| pdf := "quiz.pdf"; output := Some "rubric.csv"%string |}
    = Done r
    /\ ended r = Returned 0
    /\ (ended r = Returned 0 <-> written r <> None).
Proof.
  destruct (main example_inflate (fun p suffix => String.append p suffix)
              {| files := files refusing_fs; write_refused := fun _ => None |}
              {| pdf := "quiz.pdf"; output := Some "rubric.csv"%string |})
    as [r| |] eqn:E.
  - exists r. split; [reflexivity|]. split.
    + vm_compute in E. injection E as <-. reflexivity.
    + apply (main_writes_iff_success example_inflate
               (fun p suffix => String.append p suffix)
               {| files := files refusing_fs; write_refused := fun _ => None |}
               {| pdf := "quiz.pdf"; output := Some "rubric.csv"%string |}).
      exact E.
  - vm_compute in E. discriminate.
  - vm_compute in E. discriminate.
Defined.

